(** * The [draw] package of yet-another-3d-thing: edge matrices and line rasterisation

    A shallow embedding of [src/draw/draw.go] and the properties its
    specification states about it.

    Modelling choices, fixed once here:
    - Go's [float64] is Rocq's primitive binary64 [float]; every Go operator is
      one correctly rounded IEEE operation (no fused multiply-add).  Go's
      [a > b] and [a >= b] are written [b <? a] and [b <=? a].
    - Go's [int] is the 64-bit two's complement integer, carried in [Z] with
      the wrap-around written out ([wrap]).
    - A slice is a [list]; indexing out of range is a run-time panic.  Rows of
      a matrix are assumed not to share storage.
    - A call either returns, panics, or is still running when the model's loop
      bound (the [fuel]) is used up: type [result].
    - The packages [display], [matrix] and [math] are not part of the sources;
      they are interfaces ([Display], [MatrixPkg], [MathPkg]). *)

From Stdlib Require Import ZArith Floats Lia Bool.
From stdpp Require Import base list strings.

Set Warnings "-inexact-float".
Local Open Scope Z_scope.

(** ** Outcome of a call *)

Inductive result (A : Type) : Type :=
| Ok (a : A)
| Panic
| OutOfFuel.
Arguments Ok {A} a.
Arguments Panic {A}.
Arguments OutOfFuel {A}.

#[global] Instance result_ret : MRet result := @Ok.
#[global] Instance result_bind : MBind result := fun A B f r =>
  match r with
  | Ok a => f a
  | Panic => Panic
  | OutOfFuel => OutOfFuel
  end.

(** A Go [for cond { body }] loop.  [cond] may itself panic (it may index a
    slice).  One unit of fuel is spent per execution of the body, so a loop
    whose condition is false at once returns with any fuel. *)
Fixpoint loop {St : Type} (fuel : nat) (cond : St -> result bool)
    (body : St -> result St) (s : St) : result St :=
  b ← cond s;
  if (b : bool) then
    match fuel with
    | O => OutOfFuel
    | S n => s' ← body s; loop n cond body s'
    end
  else Ok s.

(** The common case of a condition that cannot panic. *)
Definition while {St : Type} (fuel : nat) (cond : St -> bool)
    (body : St -> result St) (s : St) : result St :=
  loop fuel (fun s => Ok (cond s)) body s.

(** [l[i]] with Go's bounds check. *)
Definition index {A : Type} (l : list A) (i : Z) : result A :=
  if i <? 0 then Panic
  else match l !! Z.to_nat i with
       | Some a => Ok a
       | None => Panic
       end.

(** ** Go's numeric conversions *)

(** Wrap-around of the 64-bit [int]. *)
Definition wrap (z : Z) : Z := (z + 2 ^ 63) mod 2 ^ 64 - 2 ^ 63.

(** The values of an [int]. *)
Definition is_int (z : Z) : Prop := - 2 ^ 63 <= z < 2 ^ 63.

(** What [int(f)] yields when [f] is a NaN, an infinity, or its truncation does
    not fit an [int]: Go leaves it to the implementation (amd64 yields
    [-2^63]).  Whatever it is, it is an [int]. *)
Class Arch := {
  int_of_invalid : float -> Z;
  int_of_invalid_is_int : forall f, is_int (int_of_invalid f);
}.

(** Truncation of a float toward zero, where it has a value. *)
Definition trunc (f : float) : option Z :=
  match Prim2SF f with
  | S754_zero _ => Some 0
  | S754_finite s m e =>
      let mag := Z.shiftl (Z.pos m) e in
      Some (if s then - mag else mag)
  | S754_infinity _ | S754_nan => None
  end.

(** Go's [int(f)]. *)
Definition int_of_float `{Arch} (f : float) : Z :=
  match trunc f with
  | Some z => if (- 2 ^ 63 <=? z) && (z <? 2 ^ 63) then z else int_of_invalid f
  | None => int_of_invalid f
  end.

(** Go's [float64(n)]: the nearest binary64, ties to even. *)
Definition float_of_int (n : Z) : float :=
  SF2Prim (binary_normalize prec emax n 0 false).

(** [math.Pi] as a [float64]. *)
Definition Pi : float := 0x1.921fb54442d18p+1%float.

(** ** The imported packages *)

(** [[][]float64], [[]int] and [[][][]int]. *)
Abbreviation matrix := (list (list float)).
Abbreviation color := (list Z).
Abbreviation Screen := (list (list (list Z))).

(** Package [display]: the two resolution constants, used as [int]s. *)
Class Display := {
  XRES : Z;
  YRES : Z;
  XRES_is_int : is_int XRES;
  YRES_is_int : is_int YRES;
}.

(** Package [math]. *)
Class MathPkg := {
  Cos : float -> float;
  Sin : float -> float;
  Pow : float -> float -> float;
}.

(** Package [matrix].  [MultiplyMatrices] receives both matrices by pointer:
    it maps their values before the call to their values after it. *)
Class MatrixPkg := {
  MakeBezier : matrix;
  MakeHermite : matrix;
  NewMatrix : Z -> Z -> matrix;
  MultiplyMatrices : matrix -> matrix -> result (matrix * matrix);
  ExtractColumn : matrix -> Z -> result (list float);
}.

(** Go's built-in [copy(dst, src)] on slices: the first [min (len dst) (len src)]
    elements of [dst] are overwritten. *)
Definition copy {A : Type} (dst src : list A) : list A :=
  let n := Nat.min (length dst) (length src) in
  take n src ++ drop n dst.

(** ** Package [draw] *)

Definition DefaultDrawColor : color := [0; 0; 0].

(** The diagnostic of [AddCurve], as [println] writes it. *)
Definition dquote : string := String (Ascii.ascii_of_nat 34) EmptyString.
Definition curve_type_diagnostic : string :=
  "Curve type supplied to AddCurve was not " +:+ dquote +:+ "hermite" +:+ dquote
    +:+ " or " +:+ dquote +:+ "bezier" +:+ dquote +:+ ".".

(** [m[i] = append(m[i], v)]. *)
Definition append_to_row (m : matrix) (i : Z) (v : float) : result matrix :=
  row ← index m i;
  Ok (<[Z.to_nat i := row ++ [v]]> m).

Definition AddPoint (m : matrix) (x y z : float) : result matrix :=
  m ← append_to_row m 0 x;
  m ← append_to_row m 1 y;
  m ← append_to_row m 2 z;
  append_to_row m 3 1%float.

Definition AddEdge (m : matrix) (params : list float) : result matrix :=
  x0 ← index params 0; y0 ← index params 1; z0 ← index params 2;
  x1 ← index params 3; y1 ← index params 4; z1 ← index params 5;
  m ← AddPoint m x0 y0 z0;
  AddPoint m x1 y1 z1.

Section Draw.
Context `{Arch} `{Display} `{MathPkg} `{MatrixPkg}.

Definition AddCircle (fuel : nat) (m : matrix) (params : list float) : result matrix :=
  cx ← index params 0; cy ← index params 1; _ ← index params 2; r ← index params 3;
  '(_, m) ← while fuel
    (fun '(t, m) => (t <? 1)%float)
    (fun '(t, m) =>
       let x := (r * Cos (2 * Pi * t) + cx)%float in
       let y := (r * Sin (2 * Pi * t) + cy)%float in
       m ← AddPoint m x y 0%float;
       Ok ((t + 0.01)%float, m))
    (0%float, m);
  Ok m.

(** [y] is the named result, zero at entry; the loop counter is a float. *)
Definition CubicEval (x : float) (coefs : matrix) : result float :=
  '(_, y) ← while 4
    (fun '(i, y) => (0 <=? i)%float)
    (fun '(i, y) =>
       row ← index coefs 0;
       c ← index row (int_of_float (3 - i)%float);
       Ok ((i - 1)%float, (y + c * Pow x i)%float))
    (3%float, 0%float);
  Ok y.

(** The part of [AddCurve] after the [switch]. *)
Definition curve_points (fuel : nat) (m : matrix) (x0 y0 x1 y1 x2 y2 x3 y3 step : float)
    (coefGenerator : matrix) : result matrix :=
  let xCoefs := NewMatrix 4 4 in
  let yCoefs := NewMatrix 4 4 in
  let xCoefs := copy xCoefs coefGenerator in
  let yCoefs := copy yCoefs coefGenerator in
  let xCoords := [[x0; x1; x2; x3]] in
  let yCoords := [[y0; y1; y2; y3]] in
  '(xCoords, xCoefs) ← MultiplyMatrices xCoords xCoefs;
  '(yCoords, yCoefs) ← MultiplyMatrices yCoords yCoefs;
  '(_, m) ← while fuel
    (fun '(t, m) => (t <? 1)%float)
    (fun '(t, m) =>
       x ← CubicEval t xCoefs;
       y ← CubicEval t yCoefs;
       m ← AddPoint m x y 0%float;
       Ok ((t + step)%float, m))
    (0%float, m);
  Ok m.

(** The result comes with the lines written by [println]. *)
Definition AddCurve (fuel : nat) (m : matrix) (x0 y0 x1 y1 x2 y2 x3 y3 step : float)
    (curveType : string) : list string * result matrix :=
  if String.eqb curveType "hermite" then
    ([], curve_points fuel m x0 y0 x1 y1 x2 y2 x3 y3 step MakeBezier)
  else if String.eqb curveType "bezier" then
    ([], curve_points fuel m x0 y0 x1 y1 x2 y2 x3 y3 step MakeHermite)
  else
    ([curve_type_diagnostic], Ok m).

Definition float64ToInt (f : float) : Z :=
  if (f - float_of_int (int_of_float f) <? 0.5)%float then int_of_float f
  else int_of_float (f + 1)%float.

(** [screen[row][col] = v]. *)
Definition store (screen : Screen) (row col : Z) (v : color) : result Screen :=
  line ← index screen row;
  _ ← index line col;
  Ok (<[Z.to_nat row := <[Z.to_nat col := v]> line]> screen).

Definition plot (screen : Screen) (x y : float) : result Screen :=
  let newX := float64ToInt x in
  let newY := wrap (wrap (YRES - float64ToInt y) - 1) in
  if (0 <=? newX) && (newX <? XRES) && (0 <=? newY) && (newY <? YRES) then
    store screen newY newX DefaultDrawColor
  else Ok screen.

(** The framebuffer together with the record of the calls of [plot] made on
    it, oldest first.  The record is not in the Go program: it is kept so that
    the calls can be counted. *)
Record canvas : Type := Canvas { pixels : Screen; plotted : list (float * float) }.

(** A call [plot(screen, x, y)] from [DrawLine]. *)
Definition plot_call (c : canvas) (x y : float) : result canvas :=
  screen ← plot (pixels c) x y;
  Ok (Canvas screen (plotted c ++ [(x, y)])).

Definition DrawLine (fuel : nat) (c : canvas) (x0 y0 x1 y1 : float) : result canvas :=
  let '(x0, y0, x1, y1) :=
    if (x1 <? x0)%float then (x1, y1, x0, y0) else (x0, y0, x1, y1) in
  let A := (y1 - y0)%float in
  let B := (x0 - x1)%float in
  let x := x0 in
  let y := y0 in
  if (B =? 0)%float then
    let '(y0, y1) := if (y1 <? y0)%float then (y1, y0) else (y0, y1) in
    let y := y0 in
    '(c, _) ← while fuel
      (fun '(c, y) => (y <=? y1)%float)
      (fun '(c, y) => c ← plot_call c x y; Ok (c, (y + 1)%float))
      (c, y);
    Ok c
  else
    let slope := (A / (- B))%float in
    let d := 0%float in
    st ← (if (0 <=? slope)%float && (slope <=? 1)%float then
            let d := (2 * A + B)%float in
            while fuel
              (fun '(c, x, y, d) => (x <=? x1)%float && (y <=? y1)%float)
              (fun '(c, x, y, d) =>
                 c ← plot_call c x y;
                 let '(y, d) := if (0 <? d)%float then ((y + 1)%float, (d + 2 * B)%float)
                                else (y, d) in
                 Ok (c, (x + 1)%float, y, (d + 2 * A)%float))
              (c, x, y, d)
          else Ok (c, x, y, d));
    st ← (let '(c, x, y, d) := st in
          if (1 <? slope)%float then
            let d := (A + 2 * B)%float in
            while fuel
              (fun '(c, x, y, d) => (x <=? x1)%float && (y <=? y1)%float)
              (fun '(c, x, y, d) =>
                 c ← plot_call c x y;
                 let '(x, d) := if (d <? 0)%float then ((x + 1)%float, (d + 2 * A)%float)
                                else (x, d) in
                 Ok (c, x, (y + 1)%float, (d + 2 * B)%float))
              (c, x, y, d)
          else Ok st);
    st ← (let '(c, x, y, d) := st in
          if (slope <? 0)%float && (-1 <=? slope)%float then
            let d := (2 * A - B)%float in
            while fuel
              (fun '(c, x, y, d) => (x <=? x1)%float && (y1 <=? y)%float)
              (fun '(c, x, y, d) =>
                 c ← plot_call c x y;
                 let '(y, d) := if (d <? 0)%float then ((y - 1)%float, (d - 2 * B)%float)
                                else (y, d) in
                 Ok (c, (x + 1)%float, y, (d + 2 * A)%float))
              (c, x, y, d)
          else Ok st);
    st ← (let '(c, x, y, d) := st in
          if (slope <? -1)%float then
            let d := (A - 2 * B)%float in
            while fuel
              (fun '(c, x, y, d) => (x <=? x1)%float && (y1 <=? y)%float)
              (fun '(c, x, y, d) =>
                 c ← plot_call c x y;
                 let '(x, d) := if (0 <? d)%float then ((x + 1)%float, (d + 2 * A)%float)
                                else (x, d) in
                 Ok (c, x, (y - 1)%float, (d - 2 * B)%float))
              (c, x, y, d)
          else Ok st);
    let '(c, _, _, _) := st in
    Ok c.

Definition DrawLineFromParams (fuel : nat) (c : canvas) (params : list float) : result canvas :=
  if 4 <=? Z.of_nat (length params) then
    p0 ← index params 0; p1 ← index params 1; p2 ← index params 2; p3 ← index params 3;
    DrawLine fuel c p0 p1 p2 p3
  else Ok c.

Definition DrawLines (fuel : nat) (edges : matrix) (c : canvas) : result canvas :=
  '(_, c) ← loop fuel
    (fun '(i, c) => row ← index edges 0; Ok (i <? wrap (Z.of_nat (length row) - 1)))
    (fun '(i, c) =>
       point ← ExtractColumn edges i;
       nextPoint ← ExtractColumn edges (wrap (i + 1));
       x0 ← index point 0; y0 ← index point 1;
       x1 ← index nextPoint 0; y1 ← index nextPoint 1;
       c ← DrawLine fuel c x0 y0 x1 y1;
       Ok (wrap (i + 1), c))
    (0, c);
  Ok c.

End Draw.

(** ** Concrete instances, to run the model *)

(** Go on amd64: an invalid conversion yields the smallest [int]. *)
#[local] Instance amd64 : Arch.
Proof. refine {| int_of_invalid := fun _ => - 2 ^ 63 |}. intros _. unfold is_int. lia. Defined.

(** A 500 by 500 framebuffer. *)
#[local] Instance display_500 : Display.
Proof. refine {| XRES := 500; YRES := 500 |}; unfold is_int; lia. Defined.

(** Modelled from the spec: the [math] package is not in the sources.  [Pow]
    is exact repeated multiplication for the exponents [CubicEval] uses; [Cos]
    and [Sin] are short Taylor polynomials, close to the functions near 0 only.
    They serve to run the model, no theorem depends on them. *)
Definition pow_small (x i : float) : float :=
  if (i =? 0)%float then 1%float
  else if (i =? 1)%float then x
  else if (i =? 2)%float then (x * x)%float
  else (x * (x * x))%float.
Definition cos_taylor (a : float) : float := (1 - a * a / 2 + a * a * a * a / 24)%float.
Definition sin_taylor (a : float) : float := (a - a * a * a / 6)%float.
#[local] Instance math_model : MathPkg :=
  {| Cos := cos_taylor; Sin := sin_taylor; Pow := pow_small |}.

(** Modelled from the spec: the [matrix] package is not in the sources.  The
    spec asks of it the product of a row-vector matrix by a 4x4 matrix, the
    extraction of a column, the two basis matrices and a zero matrix of given
    size.  The product replaces the second operand, where [AddCurve] reads it;
    the basis matrices are the textbook ones, laid out so that a row of
    control values times the matrix gives the coefficients, highest degree
    first. *)
Definition dot (u v : list float) : float :=
  foldl (fun acc p => (acc + fst p * snd p)%float) 0%float (zip u v).
Definition column (m : matrix) (j : nat) : list float :=
  omap (fun row => row !! j) m.
Definition product (a b : matrix) : matrix :=
  let width := match b with row :: _ => length row | [] => 0%nat end in
  map (fun u => map (fun j => dot u (column b j)) (seq 0 width)) a.
Definition bezier_basis : matrix :=
  [[-1; 3; -3; 1]; [3; -6; 3; 0]; [-3; 3; 0; 0]; [1; 0; 0; 0]]%float.
Definition hermite_basis : matrix :=
  [[2; -3; 0; 1]; [-2; 3; 0; 0]; [1; -2; 1; 0]; [1; -1; 0; 0]]%float.
Definition extract_column (m : matrix) (i : Z) : result (list float) :=
  foldr (fun row acc => v ← index row i; rest ← acc; Ok (v :: rest)) (Ok []) m.
#[local] Instance matrix_model : MatrixPkg :=
  {| MakeBezier := bezier_basis;
     MakeHermite := hermite_basis;
     NewMatrix := fun rows cols =>
       replicate (Z.to_nat rows) (replicate (Z.to_nat cols) 0%float);
     MultiplyMatrices := fun a b => Ok (a, product a b);
     ExtractColumn := extract_column |}.

(** A blank framebuffer of the given size, every pixel white. *)
Definition blank_screen (rows cols : nat) : Screen :=
  replicate rows (replicate cols [255; 255; 255]).
Definition blank_canvas (rows cols : nat) : canvas := Canvas (blank_screen rows cols) [].
Definition empty_matrix : matrix := [[]; []; []; []].

(** The calls of [plot] a drawing made, when it returned. *)
Definition calls (r : result canvas) : option (list (float * float)) :=
  match r with
  | Ok c => Some (plotted c)
  | Panic | OutOfFuel => None
  end.

(** ** What the specification speaks of *)

Section Specification.
Context `{Arch} `{Display} `{MathPkg} `{MatrixPkg}.

(** The endpoints of a segment, swapped when the second lies to the left. *)
Definition ordered_endpoints (x0 y0 x1 y1 : float) : float * float * float * float :=
  if (x1 <? x0)%float then (x1, y1, x0, y0) else (x0, y0, x1, y1).

(** The octant-1 algorithm in the words of the specification: one advance
    steps [y] and adjusts [d] by [2B] when [d > 0], and always steps [x] and
    adjusts [d] by [2A]. *)
Definition octant1_advance (A B : float) (s : float * float * float) : float * float * float :=
  let '(x, y, d) := s in
  let '(y, d) := if (0 <? d)%float then ((y + 1)%float, (d + 2 * B)%float) else (y, d) in
  ((x + 1)%float, y, (d + 2 * A)%float).

(** While [x <= x1] and [y <= y1]: plot the current point, then advance. *)
Fixpoint octant1_from (fuel : nat) (c : canvas) (A B x1 y1 : float)
    (s : float * float * float) : result canvas :=
  let '(x, y, d) := s in
  if (x <=? x1)%float && (y <=? y1)%float then
    match fuel with
    | O => OutOfFuel
    | S n => c ← plot_call c x y; octant1_from n c A B x1 y1 (octant1_advance A B s)
    end
  else Ok c.

(** The whole of it, from the initial decision variable [2A + B]. *)
Definition octant1 (fuel : nat) (c : canvas) (x0 y0 x1 y1 : float) : result canvas :=
  let A := (y1 - y0)%float in
  let B := (x0 - x1)%float in
  octant1_from fuel c A B x1 y1 (x0, y0, (2 * A + B)%float).


(** A framebuffer that holds at least [YRES] rows of at least [XRES] pixels. *)
Definition screen_fits (screen : Screen) : Prop :=
  YRES <= Z.of_nat (length screen) /\
  Forall (fun line => XRES <= Z.of_nat (length line)) screen.

(** The pixel [screen[row][col]], where there is one. *)
Definition pixel (screen : Screen) (row col : Z) : option color :=
  if (row <? 0) || (col <? 0) then None
  else line ← screen !! Z.to_nat row; line !! Z.to_nat col.

(** Every column of the edge matrix has the w-component 1. *)
Definition w_invariant (m : matrix) : Prop :=
  forall row, m !! 3%nat = Some row -> Forall (fun w => w = 1%float) row.

(** The values the loop variable [t] of [AddCircle] and [AddCurve] takes:
    from [t], by [step], while below 1; [None] when more than [fuel] of them. *)
Fixpoint param_values (fuel : nat) (t step : float) : option (list float) :=
  if (t <? 1)%float then
    match fuel with
    | O => None
    | S n => cons t <$> param_values n (t + step)%float step
    end
  else Some [].



(** [AddCurve] in the words of the specification: each family with its own
    basis matrix. *)
Definition AddCurve_spec (fuel : nat) (m : matrix) (x0 y0 x1 y1 x2 y2 x3 y3 step : float)
    (curveType : string) : list string * result matrix :=
  if String.eqb curveType "hermite" then
    ([], curve_points fuel m x0 y0 x1 y1 x2 y2 x3 y3 step MakeHermite)
  else if String.eqb curveType "bezier" then
    ([], curve_points fuel m x0 y0 x1 y1 x2 y2 x3 y3 step MakeBezier)
  else
    ([curve_type_diagnostic], Ok m).

(** *** The loops of [DrawLine], one by one *)

(** The loop of the vertical case, on the canvas and [y]. *)
Definition loop_vertical (fuel : nat) (x y1 : float) (s : canvas * float) :
    result (canvas * float) :=
  while fuel
    (fun '(c, y) => (y <=? y1)%float)
    (fun '(c, y) => c ← plot_call c x y; Ok (c, (y + 1)%float))
    s.

(** The loops of the octants 1, 2, 8 and 7, on the canvas, [x], [y] and [d]. *)
Definition loop_octant1 (fuel : nat) (A B x1 y1 : float)
    (s : canvas * float * float * float) : result (canvas * float * float * float) :=
  while fuel
    (fun '(c, x, y, d) => (x <=? x1)%float && (y <=? y1)%float)
    (fun '(c, x, y, d) =>
       c ← plot_call c x y;
       let '(y, d) := if (0 <? d)%float then ((y + 1)%float, (d + 2 * B)%float)
                      else (y, d) in
       Ok (c, (x + 1)%float, y, (d + 2 * A)%float))
    s.

Definition loop_octant2 (fuel : nat) (A B x1 y1 : float)
    (s : canvas * float * float * float) : result (canvas * float * float * float) :=
  while fuel
    (fun '(c, x, y, d) => (x <=? x1)%float && (y <=? y1)%float)
    (fun '(c, x, y, d) =>
       c ← plot_call c x y;
       let '(x, d) := if (d <? 0)%float then ((x + 1)%float, (d + 2 * A)%float)
                      else (x, d) in
       Ok (c, x, (y + 1)%float, (d + 2 * B)%float))
    s.

Definition loop_octant8 (fuel : nat) (A B x1 y1 : float)
    (s : canvas * float * float * float) : result (canvas * float * float * float) :=
  while fuel
    (fun '(c, x, y, d) => (x <=? x1)%float && (y1 <=? y)%float)
    (fun '(c, x, y, d) =>
       c ← plot_call c x y;
       let '(y, d) := if (d <? 0)%float then ((y - 1)%float, (d - 2 * B)%float)
                      else (y, d) in
       Ok (c, (x + 1)%float, y, (d + 2 * A)%float))
    s.

Definition loop_octant7 (fuel : nat) (A B x1 y1 : float)
    (s : canvas * float * float * float) : result (canvas * float * float * float) :=
  while fuel
    (fun '(c, x, y, d) => (x <=? x1)%float && (y1 <=? y)%float)
    (fun '(c, x, y, d) =>
       c ← plot_call c x y;
       let '(x, d) := if (0 <? d)%float then ((x + 1)%float, (d + 2 * A)%float)
                      else (x, d) in
       Ok (c, x, (y - 1)%float, (d - 2 * B)%float))
    s.

(** The octants as a chain of alternatives: the loop of the first octant
    whose test holds, else nothing. *)
Definition octant_chain (fuel : nat) (c : canvas) (A B x0 y0 x1 y1 : float) : result canvas :=
  let slope := (A / (- B))%float in
  if (0 <=? slope)%float && (slope <=? 1)%float then
    s ← loop_octant1 fuel A B x1 y1 (c, x0, y0, (2 * A + B)%float); Ok s.1.1.1
  else if (1 <? slope)%float then
    s ← loop_octant2 fuel A B x1 y1 (c, x0, y0, (A + 2 * B)%float); Ok s.1.1.1
  else if (slope <? 0)%float && (-1 <=? slope)%float then
    s ← loop_octant8 fuel A B x1 y1 (c, x0, y0, (2 * A - B)%float); Ok s.1.1.1
  else if (slope <? -1)%float then
    s ← loop_octant7 fuel A B x1 y1 (c, x0, y0, (A - 2 * B)%float); Ok s.1.1.1
  else Ok c.

(** [DrawLine] with one loop at most: the vertical loop, else the chain of
    the octants. *)
Definition DrawLine_one_loop (fuel : nat) (c : canvas) (x0 y0 x1 y1 : float) : result canvas :=
  let '(x0, y0, x1, y1) := ordered_endpoints x0 y0 x1 y1 in
  let A := (y1 - y0)%float in
  let B := (x0 - x1)%float in
  if (B =? 0)%float then
    let '(y0, y1) := if (y1 <? y0)%float then (y1, y0) else (y0, y1) in
    s ← loop_vertical fuel x0 y1 (c, y0); Ok s.1
  else octant_chain fuel c A B x0 y0 x1 y1.

(** The point [DrawLine] plots first, when it plots at all. *)
Definition first_point (x0 y0 x1 y1 : float) : float * float :=
  let '(x0, y0, x1, y1) := ordered_endpoints x0 y0 x1 y1 in
  if (x0 - x1 =? 0)%float then (x0, if (y1 <? y0)%float then y1 else y0) else (x0, y0).

(** [q] is [p] moved by one step of the rasteriser: [x] stays or grows by 1,
    [y] stays or changes by 1, and one of them changes. *)
Definition pixel_step (p q : float * float) : Prop :=
  (q.1 = p.1 \/ q.1 = (p.1 + 1)%float) /\
  (q.2 = p.2 \/ q.2 = (p.2 + 1)%float \/ q.2 = (p.2 - 1)%float) /\
  (q.1 = (p.1 + 1)%float \/ q.2 = (p.2 + 1)%float \/ q.2 = (p.2 - 1)%float).

(** Each point is one step from the one before. *)
Fixpoint linked (pts : list (float * float)) : Prop :=
  match pts with
  | p :: (q :: _) as rest => pixel_step p q /\ linked rest
  | _ => True
  end.

(** A run of points that, when not empty, starts at [start]. *)
Definition path_from (start : float * float) (pts : list (float * float)) : Prop :=
  match pts with
  | [] => True
  | p :: _ => p = start
  end /\ linked pts.

(** [screen'] has the rows of [screen], each of its length, and differs from
    it only in pixels that hold the default draw color. *)
Definition painted_from (screen screen' : Screen) : Prop :=
  (forall i, length <$> screen' !! i = length <$> screen !! i) /\
  (forall row col, pixel screen' row col = pixel screen row col \/
                   pixel screen' row col = Some DefaultDrawColor).

(** The segments [DrawLines] draws for the rows [xs] and [ys] of x and y
    coordinates: from each column to the next. *)
Fixpoint segments (xs ys : list float) : list (float * float * float * float) :=
  match xs, ys with
  | x0 :: (x1 :: _) as xs', y0 :: (y1 :: _) as ys' => (x0, y0, x1, y1) :: segments xs' ys'
  | _, _ => []
  end.

(** [DrawLine] on each segment in turn. *)
Fixpoint draw_each (fuel : nat) (c : canvas) (segs : list (float * float * float * float)) :
    result canvas :=
  match segs with
  | [] => Ok c
  | (x0, y0, x1, y1) :: rest => c ← DrawLine fuel c x0 y0 x1 y1; draw_each fuel c rest
  end.

(** The cubic [CubicEval] sums for a row of coefficients that starts
    [c0; c1; c2; c3]: highest degree first, from the left, starting at 0. *)
Definition cubic (c0 c1 c2 c3 t : float) : float :=
  (0 + c0 * Pow t 3 + c1 * Pow t 2 + c2 * Pow t 1 + c3 * Pow t 0)%float.

(** A counter that starts at [v] and is moved by [next] leaves the range
    [inside] within [fuel] moves. *)
Fixpoint leaves (fuel : nat) (inside : float -> bool) (next : float -> float) (v : float) :
    bool :=
  if inside v then
    match fuel with
    | O => false
    | S n => leaves n inside next (next v)
    end
  else true.

(** Counting up by 1 from [v] passes [bound], counting down by 1 from [v]
    falls below [bound], within [fuel] steps. *)
Definition climbs (fuel : nat) (v bound : float) : bool :=
  leaves fuel (fun v => (v <=? bound)%float) (fun v => (v + 1)%float) v.
Definition descends (fuel : nat) (v bound : float) : bool :=
  leaves fuel (fun v => (bound <=? v)%float) (fun v => (v - 1)%float) v.

(** The counter that drives the loop [DrawLine] runs leaves its range within
    [fuel] steps: [y] in the vertical case and in the octants 2 and 7, [x] in
    the octants 1 and 8. *)
Definition enough_fuel (fuel : nat) (x0 y0 x1 y1 : float) : bool :=
  let '(x0, y0, x1, y1) := ordered_endpoints x0 y0 x1 y1 in
  let A := (y1 - y0)%float in
  let B := (x0 - x1)%float in
  if (B =? 0)%float then
    let '(y0, y1) := if (y1 <? y0)%float then (y1, y0) else (y0, y1) in
    climbs fuel y0 y1
  else
    let slope := (A / (- B))%float in
    if (0 <=? slope)%float && (slope <=? 1)%float then climbs fuel x0 x1
    else if (1 <? slope)%float then climbs fuel y0 y1
    else if (slope <? 0)%float && (-1 <=? slope)%float then climbs fuel x0 x1
    else if (slope <? -1)%float then descends fuel y0 y1
    else true.

End Specification.

(** * Properties *)

(** ** Binary64 comparisons *)

Lemma SFcompare_antisym (a b : spec_float) :
  SFcompare b a = option_map CompOpp (SFcompare a b).
Proof.
  destruct a as [sa|sa| |sa ma ea], b as [sb|sb| |sb mb eb]; simpl; try reflexivity;
    try (destruct sa; reflexivity); try (destruct sb; reflexivity);
    try (destruct sa, sb; reflexivity).
  destruct sa, sb; simpl; try reflexivity;
    rewrite (Z.compare_antisym ea eb); destruct (ea ?= eb); simpl; try reflexivity;
    rewrite (Pos.compare_cont_antisym ma mb Eq); reflexivity.
Qed.

(** Two floats that compare equal are the same float, or two zeros. *)
Lemma SFcompare_Eq_inv (a b : spec_float) :
  SFcompare a b = Some Eq ->
  a = b \/ (exists sa sb, a = S754_zero sa /\ b = S754_zero sb).
Proof.
  destruct a as [sa|sa| |sa ma ea], b as [sb|sb| |sb mb eb]; simpl; try discriminate;
    try (destruct sa; discriminate); try (destruct sb; discriminate).
  - intros _. right. eauto.
  - destruct sa, sb; try discriminate; auto.
  - destruct sa, sb; try discriminate; destruct (ea ?= eb) eqn:He; try discriminate;
      apply Z.compare_eq in He; subst eb; intros Hm; left; f_equal.
    + destruct (Pos.compare_cont Eq ma mb) eqn:Hc; try discriminate.
      apply Pos.compare_eq in Hc. exact Hc.
    + apply Pos.compare_eq. injection Hm as Hm. exact Hm.
Qed.

Lemma leb_ltb_false (a b : float) : (a <=? b)%float = true -> (b <? a)%float = false.
Proof.
  rewrite FloatAxioms.leb_spec, FloatAxioms.ltb_spec. unfold SFleb, SFltb.
  rewrite (SFcompare_antisym (Prim2SF a) (Prim2SF b)).
  destruct (SFcompare (Prim2SF a) (Prim2SF b)) as [[]|]; simpl; congruence.
Qed.

Lemma ltb_leb_false (a b : float) : (a <? b)%float = true -> (b <=? a)%float = false.
Proof.
  rewrite FloatAxioms.leb_spec, FloatAxioms.ltb_spec. unfold SFleb, SFltb.
  rewrite (SFcompare_antisym (Prim2SF a) (Prim2SF b)).
  destruct (SFcompare (Prim2SF a) (Prim2SF b)) as [[]|]; simpl; congruence.
Qed.

Lemma eqb_ltb_false (a b : float) : (a =? b)%float = true -> (b <? a)%float = false.
Proof.
  rewrite FloatAxioms.eqb_spec, FloatAxioms.ltb_spec. unfold SFeqb, SFltb.
  rewrite (SFcompare_antisym (Prim2SF a) (Prim2SF b)).
  destruct (SFcompare (Prim2SF a) (Prim2SF b)) as [[]|]; simpl; congruence.
Qed.

Lemma eqb_leb (a b : float) : (a =? b)%float = true -> (a <=? b)%float = true.
Proof.
  rewrite FloatAxioms.eqb_spec, FloatAxioms.leb_spec. unfold SFeqb, SFleb.
  destruct (SFcompare (Prim2SF a) (Prim2SF b)) as [[]|]; simpl; congruence.
Qed.

Lemma nonneg_not_below_minus_one (s : float) :
  (0 <=? s)%float = true -> (s <? -1)%float = false.
Proof.
  rewrite FloatAxioms.leb_spec, FloatAxioms.ltb_spec. unfold SFleb, SFltb.
  change (Prim2SF 0) with (S754_zero false).
  change (Prim2SF (-1)) with (S754_finite true 4503599627370496 (-52)).
  destruct (Prim2SF s) as [sg|sg| |sg m e]; try destruct sg; cbv [SFcompare]; congruence.
Qed.

Lemma is_finite_SF (x : float) :
  is_finite x = true ->
  (exists s, Prim2SF x = S754_zero s) \/ (exists s m e, Prim2SF x = S754_finite s m e).
Proof.
  unfold is_finite, is_nan, is_infinity. rewrite !FloatAxioms.eqb_spec, FloatAxioms.abs_spec.
  change (Prim2SF infinity) with (S754_infinity false).
  destruct (Prim2SF x) as [s|s| |s m e]; unfold SFeqb; simpl; eauto;
    try destruct s; discriminate.
Qed.

(** The difference of two equal finite floats is zero. *)
Lemma finite_eqb_sub_zero (a b : float) :
  is_finite a = true -> (a =? b)%float = true -> (a - b =? 0)%float = true.
Proof.
  intros Hfin Heq. rewrite FloatAxioms.eqb_spec in Heq |- *. rewrite FloatAxioms.sub_spec.
  change (Prim2SF 0) with (S754_zero false). unfold SFeqb in Heq.
  destruct (SFcompare (Prim2SF a) (Prim2SF b)) as [[]|] eqn:Hc; try discriminate.
  apply SFcompare_Eq_inv in Hc.
  destruct Hc as [Hab | (sa & sb & Ha & Hb)].
  - rewrite <- Hab.
    destruct (is_finite_SF a Hfin) as [[s Hs] | (s & m & e & Hs)]; rewrite Hs.
    + destruct s; reflexivity.
    + unfold SF64sub, SFsub. rewrite Z.sub_diag. reflexivity.
  - rewrite Ha, Hb. destruct sa, sb; reflexivity.
Qed.

(** Where adding 1 to [y0] makes it larger, the sum exceeds every float equal
    to [y0]. *)
Lemma eqb_succ_not_leb (y0 y1 : float) :
  (y0 =? y1)%float = true -> (y0 <? y0 + 1)%float = true -> (y0 + 1 <=? y1)%float = false.
Proof.
  intros Heq Hlt. pose proof Heq as Heq'.
  rewrite FloatAxioms.eqb_spec in Heq'. unfold SFeqb in Heq'.
  destruct (SFcompare (Prim2SF y0) (Prim2SF y1)) as [[]|] eqn:Hc; try discriminate.
  apply SFcompare_Eq_inv in Hc.
  destruct Hc as [Hab | (sa & sb & Ha & Hb)].
  - apply Prim2SF_inj in Hab. subst y1. apply ltb_leb_false. exact Hlt.
  - rewrite FloatAxioms.leb_spec, FloatAxioms.add_spec, Ha, Hb.
    change (Prim2SF 1) with (S754_finite false 4503599627370496 (-52)).
    destruct sa, sb; reflexivity.
Qed.

(** ** Calls and loops *)

Lemma bind_ext {A B : Type} (f g : A -> result B) (r : result A) :
  (forall a, f a = g a) -> (r ≫= f) = (r ≫= g).
Proof. intros E. destruct r; simpl; auto. Qed.

Lemma loop_unfold {St : Type} (fuel : nat) (cond : St -> result bool)
    (body : St -> result St) (s : St) :
  loop fuel cond body s =
  (b ← cond s;
   if (b : bool) then
     match fuel with
     | O => OutOfFuel
     | S n => s' ← body s; loop n cond body s'
     end
   else Ok s).
Proof. destruct fuel; reflexivity. Qed.

Lemma while_false {St : Type} (fuel : nat) (cond : St -> bool) (body : St -> result St) (s : St) :
  cond s = false -> while fuel cond body s = Ok s.
Proof. intros E. unfold while. rewrite loop_unfold. simpl. rewrite E. reflexivity. Qed.

Lemma while_true {St : Type} (fuel : nat) (cond : St -> bool) (body : St -> result St) (s : St) :
  cond s = true -> while (S fuel) cond body s = (s' ← body s; while fuel cond body s').
Proof. intros E. unfold while. simpl. rewrite E. reflexivity. Qed.

Lemma while_true_0 {St : Type} (cond : St -> bool) (body : St -> result St) (s : St) :
  cond s = true -> while 0 cond body s = OutOfFuel.
Proof. intros E. unfold while. simpl. rewrite E. reflexivity. Qed.

(** A property kept by the body holds when the loop returns. *)
Lemma while_invariant {St : Type} (P : St -> Prop) (cond : St -> bool) (body : St -> result St) :
  (forall s s', P s -> body s = Ok s' -> P s') ->
  forall fuel s s', P s -> while fuel cond body s = Ok s' -> P s'.
Proof.
  intros Hbody. induction fuel as [|n IH]; intros s s' Hs.
  - destruct (cond s) eqn:E.
    + rewrite while_true_0 by exact E. discriminate.
    + rewrite while_false by exact E. intros [= <-]. exact Hs.
  - destruct (cond s) eqn:E.
    + rewrite while_true by exact E. destruct (body s) as [s1| |] eqn:Eb; simpl; try discriminate.
      apply IH. eapply Hbody; eauto.
    + rewrite while_false by exact E. intros [= <-]. exact Hs.
Qed.

Lemma index_Ok {A : Type} (l : list A) (i : Z) (a : A) :
  index l i = Ok a <-> 0 <= i /\ l !! Z.to_nat i = Some a.
Proof.
  unfold index. destruct (Z.ltb_spec i 0).
  - split; [discriminate | lia].
  - destruct (l !! Z.to_nat i); split; try discriminate; try congruence; intuition congruence.
Qed.

(** ** The line rasteriser *)

Section Rasteriser.
Context `{Arch} `{Display}.

(** The first loop of [DrawLine], read off its canvas, is the octant-1 walk of
    the specification. *)
Lemma octant1_loop (A B x1 y1 : float) (fuel : nat) :
  forall (c : canvas) (x y d : float),
    (while fuel
       (fun '(c, x, y, d) => (x <=? x1)%float && (y <=? y1)%float)
       (fun '(c, x, y, d) =>
          c ← plot_call c x y;
          let '(y, d) := if (0 <? d)%float then ((y + 1)%float, (d + 2 * B)%float)
                         else (y, d) in
          Ok (c, (x + 1)%float, y, (d + 2 * A)%float))
       (c, x, y, d) ≫= fun st => Ok st.1.1.1)
    = octant1_from fuel c A B x1 y1 (x, y, d).
Proof.
  induction fuel as [|n IH]; intros c x y d.
  - simpl. destruct ((x <=? x1)%float && (y <=? y1)%float) eqn:E.
    + rewrite while_true_0 by exact E. reflexivity.
    + rewrite while_false by exact E. reflexivity.
  - simpl. destruct ((x <=? x1)%float && (y <=? y1)%float) eqn:E.
    + rewrite while_true by exact E.
      destruct (plot_call c x y) as [c'| |]; simpl; try reflexivity.
      destruct (0 <? d)%float; apply IH.
    + rewrite while_false by exact E. reflexivity.
Qed.

(** C1. A segment whose slope, taken after the endpoints are ordered by x, lies
    between 0 and 1, and whose run [B = x0 - x1] is not zero, is drawn by the
    octant-1 algorithm of the specification and by nothing else: [d] starts at
    [2A + B]; each iteration plots the current point, then steps [y] and adds
    [2B] to [d] when [d > 0], and always steps [x] and adds [2A] to [d]; the
    loop runs while [x <= x1] and [y <= y1]. *)
Theorem DrawLine_octant1 (fuel : nat) (c : canvas) (x0 y0 x1 y1 a0 b0 a1 b1 : float) :
  ordered_endpoints x0 y0 x1 y1 = (a0, b0, a1, b1) ->
  (a0 - a1 =? 0)%float = false ->
  (0 <=? (b1 - b0) / - (a0 - a1))%float = true ->
  ((b1 - b0) / - (a0 - a1) <=? 1)%float = true ->
  DrawLine fuel c x0 y0 x1 y1 = octant1 fuel c a0 b0 a1 b1.
Proof.
  intros Hord HB Hlo Hhi. unfold DrawLine, octant1.
  unfold ordered_endpoints in Hord.
  replace (if (x1 <? x0)%float then (x1, y1, x0, y0) else (x0, y0, x1, y1))
    with (a0, b0, a1, b1).
  rewrite HB, Hlo, Hhi.
  rewrite (leb_ltb_false _ _ Hhi), (leb_ltb_false _ _ Hlo),
    (nonneg_not_below_minus_one _ Hlo).
  simpl andb. cbv iota.
  rewrite <- octant1_loop.
  apply bind_ext. intros [[[c' x'] y'] d']. reflexivity.
Qed.

(** *** Rounding and plotting *)

Lemma int_of_float_is_int (f : float) : is_int (int_of_float f).
Proof.
  unfold int_of_float. destruct (trunc f) as [z|]; [|apply int_of_invalid_is_int].
  destruct ((- 2 ^ 63 <=? z) && (z <? 2 ^ 63)) eqn:E; [|apply int_of_invalid_is_int].
  apply andb_true_iff in E. destruct E as [E1 E2]. unfold is_int. lia.
Qed.

Lemma float64ToInt_is_int (f : float) : is_int (float64ToInt f).
Proof. unfold float64ToInt. destruct (_ <? _)%float; apply int_of_float_is_int. Qed.

(** The row computed by [plot] with 64-bit arithmetic is on the screen exactly
    when [YRES - r - 1] is, and is then that number. *)
Lemma flipped_row (r : Z) :
  is_int r ->
  let row := wrap (wrap (YRES - r) - 1) in
  (0 <= row < YRES <-> 0 <= YRES - r - 1 < YRES) /\
  (0 <= YRES - r - 1 < YRES -> row = YRES - r - 1).
Proof.
  intros Hr row. subst row. pose proof YRES_is_int as HY.
  unfold is_int, wrap in *. change (2 ^ 63) with 9223372036854775808 in *.
  change (2 ^ 64) with 18446744073709551616.
  split; [split|]; intros Hb; Z.div_mod_to_equations; lia.
Qed.

Lemma store_fits (screen : Screen) (row col : Z) (v : color) :
  screen_fits screen -> 0 <= row < YRES -> 0 <= col < XRES ->
  exists line, screen !! Z.to_nat row = Some line /\
    (Z.to_nat col < length line)%nat /\
    store screen row col v = Ok (<[Z.to_nat row := <[Z.to_nat col := v]> line]> screen).
Proof.
  intros [Hrows Hcols] Hrow Hcol.
  destruct (lookup_lt_is_Some_2 screen (Z.to_nat row)) as [line Hline]; [lia|].
  assert (Hlen : XRES <= Z.of_nat (length line)).
  { rewrite Forall_forall in Hcols. apply Hcols. eapply list_elem_of_lookup_2. exact Hline. }
  destruct (lookup_lt_is_Some_2 line (Z.to_nat col)) as [old Hold]; [lia|].
  exists line. split; [exact Hline|]. split; [lia|].
  unfold store, index.
  destruct (Z.ltb_spec row 0); [lia|]. rewrite Hline. simpl.
  destruct (Z.ltb_spec col 0); [lia|]. rewrite Hold. reflexivity.
Qed.

Lemma pixel_written (screen : Screen) (line : list color) (row col : Z) (v : color) :
  0 <= row -> 0 <= col ->
  screen !! Z.to_nat row = Some line -> (Z.to_nat col < length line)%nat ->
  let screen' := <[Z.to_nat row := <[Z.to_nat col := v]> line]> screen in
  pixel screen' row col = Some v /\
  forall r c, (r, c) <> (row, col) -> pixel screen' r c = pixel screen r c.
Proof.
  intros Hrow Hcol Hline Hlen screen'. subst screen'.
  assert (Hr : (Z.to_nat row < length screen)%nat) by (eapply lookup_lt_Some; eauto).
  split.
  - unfold pixel. destruct (Z.ltb_spec row 0); [lia|]. destruct (Z.ltb_spec col 0); [lia|].
    cbv [orb]. rewrite list_lookup_insert_eq by exact Hr.
    apply list_lookup_insert_eq. exact Hlen.
  - intros r c Hne. unfold pixel.
    destruct (Z.ltb_spec r 0); [reflexivity|]. destruct (Z.ltb_spec c 0); [reflexivity|].
    cbv [orb]. destruct (decide (Z.to_nat row = Z.to_nat r)) as [E|E].
    + rewrite <- E, list_lookup_insert_eq by exact Hr. rewrite Hline.
      apply list_lookup_insert_ne. intros E'.
      apply Hne. f_equal; lia.
    + rewrite list_lookup_insert_ne by exact E. reflexivity.
Qed.

Lemma float64ToInt_minus_one : float64ToInt (-1) = -1.
Proof. reflexivity. Qed.

(** C5. [plot(screen, x, y)] writes a pixel exactly when the rounded column
    [float64ToInt x] and the flipped row [YRES - float64ToInt y - 1] lie in
    [0, XRES) x [0, YRES).  In bounds it is the assignment
    [screen[row][col] = DefaultDrawColor], which on a framebuffer of the
    display's size returns and changes that pixel only; out of bounds, as at
    (-1, 0) or at an x that rounds to XRES, it returns the framebuffer as it
    was, without error. *)
Theorem plot_writes_iff_in_bounds (screen : Screen) (x y : float) :
  let col := float64ToInt x in
  let row := YRES - float64ToInt y - 1 in
  (0 <= col < XRES /\ 0 <= row < YRES ->
     plot screen x y = store screen row col DefaultDrawColor /\
     (screen_fits screen ->
        exists screen', plot screen x y = Ok screen' /\
          pixel screen' row col = Some DefaultDrawColor /\
          forall r c, (r, c) <> (row, col) -> pixel screen' r c = pixel screen r c)) /\
  (~ (0 <= col < XRES /\ 0 <= row < YRES) -> plot screen x y = Ok screen) /\
  plot screen (-1) 0 = Ok screen /\
  (forall x', float64ToInt x' = XRES -> plot screen x' 0 = Ok screen).
Proof.
  assert (Hout : forall x y,
    ~ (0 <= float64ToInt x < XRES /\ 0 <= YRES - float64ToInt y - 1 < YRES) ->
    plot screen x y = Ok screen).
  { intros u v Hno. unfold plot.
    destruct (flipped_row (float64ToInt v) (float64ToInt_is_int v)) as [Hiff _].
    destruct (_ && _) eqn:E; [|reflexivity].
    rewrite !andb_true_iff in E. destruct E as [[[E1 E2] E3] E4].
    exfalso. apply Hno. split; [lia|]. apply Hiff. lia. }
  intros col row. subst col row. split; [|split; [|split]].
  - intros [Hc Hr].
    destruct (flipped_row (float64ToInt y) (float64ToInt_is_int y)) as [Hiff Heq].
    assert (Hplot : plot screen x y =
                    store screen (YRES - float64ToInt y - 1) (float64ToInt x) DefaultDrawColor).
    { unfold plot. rewrite (Heq Hr). destruct (_ && _) eqn:E; [reflexivity|].
      rewrite !andb_false_iff in E. lia. }
    split; [exact Hplot|]. intros Hfits.
    destruct (store_fits screen _ _ DefaultDrawColor Hfits Hr Hc) as (line & Hline & Hlen & Hst).
    exists (<[Z.to_nat (YRES - float64ToInt y - 1) :=
              <[Z.to_nat (float64ToInt x) := DefaultDrawColor]> line]> screen).
    split; [rewrite Hplot; exact Hst|].
    apply pixel_written; [lia|lia|exact Hline|exact Hlen].
  - apply Hout.
  - apply Hout. rewrite float64ToInt_minus_one. lia.
  - intros x' Hx'. apply Hout. rewrite Hx'. lia.
Qed.


(** On a framebuffer of the display's size [plot] returns, and the
    framebuffer keeps its size. *)
Lemma plot_returns (screen : Screen) (x y : float) :
  screen_fits screen ->
  exists screen', plot screen x y = Ok screen' /\ screen_fits screen'.
Proof.
  intros Hfits. unfold plot. destruct (_ && _) eqn:E; [|eauto].
  rewrite !andb_true_iff in E. destruct E as [[[E1 E2] E3] E4].
  destruct (store_fits screen (wrap (wrap (YRES - float64ToInt y) - 1)) (float64ToInt x)
              DefaultDrawColor Hfits) as (line & Hline & Hlen & Hst); [lia|lia|].
  rewrite Hst. eexists. split; [reflexivity|].
  destruct Hfits as [Hrows Hcols]. split.
  - rewrite length_insert. exact Hrows.
  - apply Forall_insert; [exact Hcols|]. rewrite length_insert.
    rewrite Forall_forall in Hcols. apply Hcols. eapply list_elem_of_lookup_2. exact Hline.
Qed.

(** The vertical case of [DrawLine]. *)
Lemma DrawLine_vertical (fuel : nat) (c : canvas) (x0 y0 x1 y1 : float) :
  (x1 <? x0)%float = false -> (x0 - x1 =? 0)%float = true -> (y1 <? y0)%float = false ->
  DrawLine fuel c x0 y0 x1 y1 =
  (while fuel
     (fun '(c, y) => (y <=? y1)%float)
     (fun '(c, y) => c ← plot_call c x0 y; Ok (c, (y + 1)%float))
     (c, y0) ≫= fun '(c, _) => Ok c).
Proof. intros Hx HB Hy. unfold DrawLine. rewrite Hx, HB, Hy. reflexivity. Qed.

(** C6, as amended.  A segment whose endpoints coincide, whose x is finite and
    whose y grows when 1 is added to it (every y below 2^53 in magnitude
    does), is drawn by one call of [plot], at that point: [DrawLine] returns,
    on a framebuffer of the display's size without panic, having plotted
    (x0, y0) once and nothing else. *)
Theorem DrawLine_degenerate (fuel : nat) (c : canvas) (x0 y0 x1 y1 : float) :
  (x0 =? x1)%float = true ->
  (y0 =? y1)%float = true ->
  is_finite x0 = true ->
  (y0 <? y0 + 1)%float = true ->
  screen_fits (pixels c) ->
  exists screen',
    plot (pixels c) x0 y0 = Ok screen' /\
    DrawLine (S fuel) c x0 y0 x1 y1 = Ok (Canvas screen' (plotted c ++ [(x0, y0)])).
Proof.
  intros Hx Hy Hfin Hgrow Hfits.
  destruct (plot_returns (pixels c) x0 y0 Hfits) as (screen' & Hplot & _).
  exists screen'. split; [exact Hplot|].
  rewrite DrawLine_vertical;
    [|apply eqb_ltb_false; exact Hx|apply finite_eqb_sub_zero; assumption
     |apply eqb_ltb_false; exact Hy].
  rewrite while_true by (apply eqb_leb; exact Hy).
  unfold plot_call. rewrite Hplot. simpl.
  rewrite while_false by (apply eqb_succ_not_leb; assumption).
  reflexivity.
Qed.

(** C10. On an edge matrix of fewer than two columns [DrawLines] returns the
    canvas as it was: the loop condition is false at once, so no column is
    extracted and [DrawLine] is not called. *)
Theorem DrawLines_fewer_than_two_columns `{MatrixPkg} (fuel : nat) (edges : matrix)
    (row0 : list float) (c : canvas) :
  edges !! 0%nat = Some row0 ->
  (length row0 < 2)%nat ->
  DrawLines fuel edges c = Ok c.
Proof.
  intros Hrow Hlen. unfold DrawLines. rewrite loop_unfold.
  assert (Hidx : index edges 0 = Ok row0) by (apply index_Ok; split; [lia|exact Hrow]).
  rewrite Hidx.
  destruct row0 as [|v [|w row0]]; simpl in Hlen; try lia; reflexivity.
Qed.

End Rasteriser.

(** *** The rasteriser on a 500 by 500 display *)

Lemma blank_screen_fits `{Display} (rows cols : nat) :
  YRES <= Z.of_nat rows -> XRES <= Z.of_nat cols -> screen_fits (blank_screen rows cols).
Proof.
  intros Hr Hc. unfold screen_fits, blank_screen. split.
  - rewrite length_replicate. exact Hr.
  - apply Forall_replicate. rewrite length_replicate. exact Hc.
Qed.

Lemma DrawLine_octant1_witness :
  ordered_endpoints 5 2 0 0 = (0, 0, 5, 2)%float /\
  (0 - 5 =? 0)%float = false /\
  (0 <=? (2 - 0) / - (0 - 5))%float = true /\
  ((2 - 0) / - (0 - 5) <=? 1)%float = true /\
  DrawLine 10 (blank_canvas 500 500) 5 2 0 0 = octant1 10 (blank_canvas 500 500) 0 0 5 2.
Proof.
  do 4 (split; [reflexivity|]).
  apply (DrawLine_octant1 10 (blank_canvas 500 500) 5 2 0 0 0 0 5 2); reflexivity.
Defined.

Lemma plot_writes_iff_in_bounds_witness :
  (exists screen', plot (blank_screen 500 500) 3 4 = Ok screen' /\
     pixel screen' 495 3 = Some DefaultDrawColor) /\
  plot (blank_screen 500 500) 500 0 = Ok (blank_screen 500 500).
Proof.
  destruct (plot_writes_iff_in_bounds (blank_screen 500 500) 3 4) as (Hin & _ & _ & Hx).
  split.
  - destruct Hin as [_ Hin]; [vm_compute; repeat split; discriminate|].
    destruct Hin as (screen' & Hplot & Hpix & _); [apply blank_screen_fits; simpl; lia|].
    exists screen'. split; [exact Hplot|exact Hpix].
  - apply Hx. reflexivity.
Defined.

Lemma DrawLine_degenerate_witness :
  (3 =? 3)%float = true /\ (4 =? 4)%float = true /\ is_finite 3 = true /\
  (4 <? 4 + 1)%float = true /\ screen_fits (pixels (blank_canvas 500 500)) /\
  exists screen',
    plot (pixels (blank_canvas 500 500)) 3 4 = Ok screen' /\
    DrawLine 1 (blank_canvas 500 500) 3 4 3 4 = Ok (Canvas screen' [(3, 4)%float]).
Proof.
  assert (Hfits : screen_fits (pixels (blank_canvas 500 500)))
    by (apply blank_screen_fits; simpl; lia).
  do 4 (split; [reflexivity|]). split; [exact Hfits|].
  apply (DrawLine_degenerate 0 (blank_canvas 500 500) 3 4 3 4); try reflexivity.
  exact Hfits.
Defined.

(** C6 as stated fails: at y = 2^53 adding 1 changes nothing, the vertical
    loop makes no progress, and [DrawLine] does not return, whatever the
    fuel. *)
Lemma DrawLine_degenerate_stuck :
  (0 =? 0)%float = true /\ (9007199254740992 =? 9007199254740992)%float = true /\
  forall fuel,
    DrawLine fuel (blank_canvas 500 500) 0 9007199254740992 0 9007199254740992 = OutOfFuel.
Proof.
  split; [reflexivity|]. split; [reflexivity|]. intros fuel.
  rewrite DrawLine_vertical by reflexivity.
  generalize (blank_canvas 500 500).
  induction fuel as [|n IH]; intros c.
  - rewrite while_true_0 by reflexivity. reflexivity.
  - rewrite while_true by reflexivity.
    unfold plot_call.
    change (plot (pixels c) 0 9007199254740992) with (Ok (pixels c)).
    change (9007199254740992 + 1)%float with 9007199254740992%float.
    apply IH.
Qed.

Lemma DrawLines_fewer_than_two_columns_witness :
  [[7]; [8]; [0]; [1]]%float !! 0%nat = Some [7%float] /\
  (length [7%float] < 2)%nat /\
  DrawLines 0 [[7]; [8]; [0]; [1]]%float (blank_canvas 500 500) = Ok (blank_canvas 500 500).
Proof.
  split; [reflexivity|]. split; [simpl; lia|].
  apply (DrawLines_fewer_than_two_columns 0 _ [7%float]); [reflexivity|simpl; lia].
Defined.

(** ** The edge matrix builders *)

Lemma AddPoint_rows (r0 r1 r2 r3 : list float) (more : matrix) (x y z : float) :
  AddPoint (r0 :: r1 :: r2 :: r3 :: more) x y z =
  Ok ((r0 ++ [x]) :: (r1 ++ [y]) :: (r2 ++ [z]) :: (r3 ++ [1%float]) :: more).
Proof. reflexivity. Qed.

(** [AddPoint] returns on matrices of at least four rows only. *)
Lemma AddPoint_Ok_inv (m m' : matrix) (x y z : float) :
  AddPoint m x y z = Ok m' ->
  exists r0 r1 r2 r3 more,
    m = r0 :: r1 :: r2 :: r3 :: more /\
    m' = (r0 ++ [x]) :: (r1 ++ [y]) :: (r2 ++ [z]) :: (r3 ++ [1%float]) :: more.
Proof.
  destruct m as [|r0 [|r1 [|r2 [|r3 more]]]]; try discriminate.
  rewrite AddPoint_rows. intros [= <-]. eauto 10.
Qed.

Lemma AddPoint_w (m m' : matrix) (x y z : float) :
  w_invariant m -> AddPoint m x y z = Ok m' -> w_invariant m'.
Proof.
  intros Hw Hadd. apply AddPoint_Ok_inv in Hadd.
  destruct Hadd as (r0 & r1 & r2 & r3 & more & -> & ->).
  intros row [= <-]. apply Forall_app. split.
  - apply Hw. reflexivity.
  - repeat constructor.
Qed.

(** C8, as amended.  [AddEdge] appends the two endpoints given by the first
    six values as two adjacent columns, in order, and ignores any further
    value; given fewer than six values it panics, whatever the matrix. *)
Theorem AddEdge_first_six_values :
  (forall (r0 r1 r2 r3 : list float) (more : matrix) (x0 y0 z0 x1 y1 z1 : float)
          (extra : list float),
     AddEdge (r0 :: r1 :: r2 :: r3 :: more) (x0 :: y0 :: z0 :: x1 :: y1 :: z1 :: extra) =
     Ok ((r0 ++ [x0; x1]) :: (r1 ++ [y0; y1]) :: (r2 ++ [z0; z1]) :: (r3 ++ [1; 1]%float)
           :: more)) /\
  (forall (m : matrix) (params : list float),
     (length params < 6)%nat -> AddEdge m params = Panic).
Proof.
  split.
  - intros. unfold AddEdge. simpl. rewrite AddPoint_rows, <- !app_assoc. reflexivity.
  - intros m params Hlen. unfold AddEdge.
    destruct params as [|x0 [|y0 [|z0 [|x1 [|y1 [|z1 extra]]]]]]; simpl in Hlen; try lia;
      reflexivity.
Qed.

(** C8 as stated fails: seven values are accepted, and the seventh is
    ignored. *)
Lemma AddEdge_seven_values :
  AddEdge empty_matrix [1; 2; 3; 4; 5; 6; 7]%float =
  Ok [[1; 4]; [2; 5]; [3; 6]; [1; 1]]%float.
Proof. reflexivity. Qed.

Lemma AddEdge_first_six_values_witness :
  AddEdge empty_matrix [1; 2; 3; 4; 5; 6; 7]%float = Ok [[1; 4]; [2; 5]; [3; 6]; [1; 1]]%float /\
  AddEdge empty_matrix [1; 2; 3; 4; 5]%float = Panic.
Proof.
  destruct AddEdge_first_six_values as [Hsix Hshort]. split.
  - apply (Hsix [] [] [] [] [] 1 2 3 4 5 6 [7])%float.
  - apply Hshort. simpl. lia.
Defined.

(** ** The curve tessellator *)

Section Tessellator.
Context `{Arch} `{MathPkg} `{MatrixPkg}.


(** A loop that appends the point [(X t, Y t, 0)] for each value of [t]. *)
Lemma sampling_loop (X Y : float -> float) (step : float) (fuel : nat) :
  forall (t : float) (r0 r1 r2 r3 : list float) (more : matrix) (ts : list float),
    param_values fuel t step = Some ts ->
    (while fuel
       (fun '(t, m) => (t <? 1)%float)
       (fun '(t, m) => m ← AddPoint m (X t) (Y t) 0%float; Ok ((t + step)%float, m))
       (t, r0 :: r1 :: r2 :: r3 :: more) ≫= fun '(_, m) => Ok m)
    = Ok ((r0 ++ map X ts) :: (r1 ++ map Y ts) :: (r2 ++ map (fun _ => 0%float) ts)
            :: (r3 ++ map (fun _ => 1%float) ts) :: more).
Proof.
  induction fuel as [|n IH]; intros t r0 r1 r2 r3 more ts; simpl;
    destruct (t <? 1)%float eqn:E; try discriminate.
  - intros [= <-]. rewrite while_false by exact E. simpl. rewrite !app_nil_r. reflexivity.
  - destruct (param_values n (t + step) step) as [ts'|] eqn:E'; [|discriminate].
    intros [= <-]. rewrite while_true by exact E.
    simpl map. rewrite !cons_middle, !app_assoc.
    exact (IH (t + step)%float (r0 ++ [X t]) (r1 ++ [Y t]) (r2 ++ [0%float])
             (r3 ++ [1%float]) more ts' E').
  - intros [= <-]. rewrite while_false by exact E. simpl. rewrite !app_nil_r. reflexivity.
Qed.


Lemma AddEdge_w (m m' : matrix) (params : list float) :
  w_invariant m -> AddEdge m params = Ok m' -> w_invariant m'.
Proof.
  intros Hw. unfold AddEdge.
  destruct (index params 0) as [x0| |]; try discriminate.
  destruct (index params 1) as [y0| |]; try discriminate.
  destruct (index params 2) as [z0| |]; try discriminate.
  destruct (index params 3) as [x1| |]; try discriminate.
  destruct (index params 4) as [y1| |]; try discriminate.
  destruct (index params 5) as [z1| |]; try discriminate.
  simpl. destruct (AddPoint m x0 y0 z0) as [m1| |] eqn:E1; try discriminate.
  simpl. intros E2. eapply AddPoint_w; [|exact E2]. eapply AddPoint_w; [exact Hw|exact E1].
Qed.

Lemma AddCircle_w (fuel : nat) (m m' : matrix) (params : list float) :
  w_invariant m -> AddCircle fuel m params = Ok m' -> w_invariant m'.
Proof.
  intros Hw. unfold AddCircle.
  destruct (index params 0) as [cx| |]; try discriminate.
  destruct (index params 1) as [cy| |]; try discriminate.
  destruct (index params 2) as [cz| |]; try discriminate.
  destruct (index params 3) as [r| |]; try discriminate.
  simpl. destruct (while fuel _ _ _) as [[t m1]| |] eqn:E; try discriminate.
  simpl. intros [= <-].
  refine (while_invariant (fun s => w_invariant s.2) _ _ _ fuel _ _ _ E); [|exact Hw].
  intros [t0 m0] s' Hm0. simpl in Hm0.
  destruct (AddPoint m0 _ _ _) as [m2| |] eqn:E2; try discriminate.
  simpl. intros [= <-]. simpl. eapply AddPoint_w; eauto.
Qed.

Lemma curve_points_w (fuel : nat) (m m' : matrix) (x0 y0 x1 y1 x2 y2 x3 y3 step : float)
    (coefGenerator : matrix) :
  w_invariant m ->
  curve_points fuel m x0 y0 x1 y1 x2 y2 x3 y3 step coefGenerator = Ok m' ->
  w_invariant m'.
Proof.
  intros Hw. unfold curve_points.
  destruct (MultiplyMatrices [[x0; x1; x2; x3]] _) as [[xs xc]| |]; try discriminate.
  simpl. destruct (MultiplyMatrices [[y0; y1; y2; y3]] _) as [[ys yc]| |]; try discriminate.
  simpl. destruct (while fuel _ _ _) as [[t m1]| |] eqn:E; try discriminate.
  simpl. intros [= <-].
  refine (while_invariant (fun s => w_invariant s.2) _ _ _ fuel _ _ _ E); [|exact Hw].
  intros [t0 m0] s' Hm0. simpl in Hm0.
  destruct (CubicEval t0 xc) as [x| |]; try discriminate.
  destruct (CubicEval t0 yc) as [y| |]; try discriminate.
  simpl. destruct (AddPoint m0 x y 0) as [m2| |] eqn:E2; try discriminate.
  simpl. intros [= <-]. simpl. eapply AddPoint_w; eauto.
Qed.

(** C9. The builders keep the w-component of every column equal to 1: from a
    matrix in which it is, [AddPoint], [AddEdge], [AddCircle] and [AddCurve]
    return matrices in which it is, the appended columns included ([AddPoint]
    extends the w row by one 1). *)
Theorem builders_keep_w (m : matrix) :
  w_invariant m ->
  (forall x y z m', AddPoint m x y z = Ok m' ->
     w_invariant m' /\
     exists row, m !! 3%nat = Some row /\ m' !! 3%nat = Some (row ++ [1%float])) /\
  (forall params m', AddEdge m params = Ok m' -> w_invariant m') /\
  (forall fuel params m', AddCircle fuel m params = Ok m' -> w_invariant m') /\
  (forall fuel x0 y0 x1 y1 x2 y2 x3 y3 step curveType out m',
     AddCurve fuel m x0 y0 x1 y1 x2 y2 x3 y3 step curveType = (out, Ok m') ->
     w_invariant m').
Proof.
  intros Hw. split; [|split; [|split]].
  - intros x y z m' Hadd. split; [eapply AddPoint_w; eauto|].
    apply AddPoint_Ok_inv in Hadd. destruct Hadd as (r0 & r1 & r2 & r3 & more & -> & ->).
    exists r3. split; reflexivity.
  - intros params m'. apply AddEdge_w. exact Hw.
  - intros fuel params m'. apply AddCircle_w. exact Hw.
  - intros fuel x0 y0 x1 y1 x2 y2 x3 y3 step curveType out m'. unfold AddCurve.
    destruct (String.eqb curveType "hermite"); [|destruct (String.eqb curveType "bezier")].
    + intros [= _ E]. eapply curve_points_w; eauto.
    + intros [= _ E]. eapply curve_points_w; eauto.
    + intros [= _ <-]. exact Hw.
Qed.

(** C7. With a curve type other than "hermite" and "bezier", [AddCurve]
    writes its diagnostic and returns the matrix as it was: no point is
    appended, no column changes, and there is no panic. *)
Theorem AddCurve_unknown_type (fuel : nat) (m : matrix)
    (x0 y0 x1 y1 x2 y2 x3 y3 step : float) (curveType : string) :
  curveType <> "hermite" ->
  curveType <> "bezier" ->
  AddCurve fuel m x0 y0 x1 y1 x2 y2 x3 y3 step curveType = ([curve_type_diagnostic], Ok m).
Proof.
  intros Hh Hb. unfold AddCurve.
  apply String.eqb_neq in Hh, Hb. rewrite Hh, Hb. reflexivity.
Qed.

End Tessellator.

(** *** The tessellator on the reference packages *)


Lemma builders_keep_w_witness :
  w_invariant empty_matrix /\
  AddPoint empty_matrix 1 2 3 = Ok [[1]; [2]; [3]; [1]]%float /\
  w_invariant [[1]; [2]; [3]; [1]]%float.
Proof.
  assert (Hw : w_invariant empty_matrix) by (intros row [= <-]; constructor).
  split; [exact Hw|]. split; [reflexivity|].
  destruct (builders_keep_w empty_matrix Hw) as (Hpoint & _).
  apply (Hpoint 1 2 3 [[1]; [2]; [3]; [1]])%float. reflexivity.
Defined.

Lemma AddCurve_unknown_type_witness :
  "linear" <> "hermite" /\ "linear" <> "bezier" /\
  AddCurve 10 empty_matrix 0 0 1 1 2 0 3 1 0.25 "linear" =
    ([curve_type_diagnostic], Ok empty_matrix).
Proof.
  split; [discriminate|]. split; [discriminate|].
  apply AddCurve_unknown_type; discriminate.
Defined.

(** C2.  The two curve families are crossed in [AddCurve]: "hermite" is drawn
    from the Bezier basis and "bezier" from the Hermite basis, whatever the
    [matrix] package provides; with the textbook matrices the points appended
    for "hermite" are those of the Bezier curve and differ from the Hermite
    ones the specification asks for. *)
Theorem AddCurve_families_crossed :
  (forall (A : Arch) (M : MathPkg) (X : MatrixPkg) fuel m x0 y0 x1 y1 x2 y2 x3 y3 step,
     AddCurve fuel m x0 y0 x1 y1 x2 y2 x3 y3 step "hermite" =
       ([], curve_points fuel m x0 y0 x1 y1 x2 y2 x3 y3 step MakeBezier) /\
     AddCurve fuel m x0 y0 x1 y1 x2 y2 x3 y3 step "bezier" =
       ([], curve_points fuel m x0 y0 x1 y1 x2 y2 x3 y3 step MakeHermite) /\
     AddCurve fuel m x0 y0 x1 y1 x2 y2 x3 y3 step "hermite" =
       AddCurve_spec fuel m x0 y0 x1 y1 x2 y2 x3 y3 step "bezier") /\
  AddCurve 4 empty_matrix 0 0 1 1 2 0 3 1 0.25 "hermite" =
    ([], Ok [[0; 0.75; 1.5; 2.25]; [0; 0.4375; 0.5; 0.5625]; [0; 0; 0; 0]; [1; 1; 1; 1]]%float) /\
  AddCurve_spec 4 empty_matrix 0 0 1 1 2 0 3 1 0.25 "hermite" =
    ([], Ok [[0; 0.296875; 0.375; 0.515625]; [0; 0.109375; 0.375; 0.703125];
             [0; 0; 0; 0]; [1; 1; 1; 1]]%float).
Proof.
  split; [|split]; [intros; repeat split|vm_compute; reflexivity|vm_compute; reflexivity].
Qed.

(** ** Further properties *)

(** The horizontal segment from (0,0) to (5,0) is drawn by six calls of
    [plot], at (0,0), (1,0), ..., (5,0) in this order. *)
Theorem DrawLine_horizontal :
  calls (DrawLine 6 (blank_canvas 500 500) 0 0 5 0) =
  Some [(0, 0); (1, 0); (2, 0); (3, 0); (4, 0); (5, 0)]%float.
Proof. vm_compute. reflexivity. Qed.

(** The vertical segment from (0,0) to (0,5) is drawn by six calls of
    [plot], at (0,0), (0,1), ..., (0,5) in this order, also when its endpoints
    are given from the top down. *)
Theorem DrawLine_vertical_six :
  calls (DrawLine 6 (blank_canvas 500 500) 0 0 0 5) =
    Some [(0, 0); (0, 1); (0, 2); (0, 3); (0, 4); (0, 5)]%float /\
  calls (DrawLine 6 (blank_canvas 500 500) 0 5 0 0) =
    Some [(0, 0); (0, 1); (0, 2); (0, 3); (0, 4); (0, 5)]%float.
Proof. split; vm_compute; reflexivity. Qed.

(** [float64ToInt] is not rounding to the nearest integer: a negative
    input is truncated toward zero, and the largest float below 1, for which
    [f + 1] rounds to 2, goes to 2. *)
Theorem float64ToInt_not_nearest :
  float64ToInt (-1.7) = -1 /\ float64ToInt 0.99999999999999989 = 2.
Proof. split; reflexivity. Qed.

(** X1. [DrawLineFromParams] draws nothing when given fewer than four
    values, and otherwise draws the segment of the first four. *)
Theorem DrawLineFromParams_arity `{Arch} `{Display} (fuel : nat) (c : canvas) :
  (forall params, (length params < 4)%nat -> DrawLineFromParams fuel c params = Ok c) /\
  (forall x0 y0 x1 y1 extra,
     DrawLineFromParams fuel c (x0 :: y0 :: x1 :: y1 :: extra) = DrawLine fuel c x0 y0 x1 y1).
Proof.
  split.
  - intros params Hlen. unfold DrawLineFromParams.
    destruct (Z.leb_spec 4 (Z.of_nat (length params))); [lia|reflexivity].
  - intros. unfold DrawLineFromParams.
    destruct (Z.leb_spec 4 (Z.of_nat (length (x0 :: y0 :: x1 :: y1 :: extra)))) as [_|Hlt];
      [reflexivity|]. simpl length in Hlt. lia.
Qed.

(** ** More on binary64 comparisons *)

Lemma ltb_irrefl (x : float) : (x <? x)%float = false.
Proof.
  destruct (x <? x)%float eqn:E; [|reflexivity].
  pose proof (ltb_leb_false x x E) as E'.
  rewrite FloatAxioms.ltb_spec in E. rewrite FloatAxioms.leb_spec in E'.
  unfold SFltb in E. unfold SFleb in E'.
  destruct (SFcompare (Prim2SF x) (Prim2SF x)) as [[]|]; discriminate.
Qed.

Lemma ltb_asym (a b : float) : (a <? b)%float = true -> (b <? a)%float = false.
Proof.
  rewrite !FloatAxioms.ltb_spec. unfold SFltb.
  rewrite (SFcompare_antisym (Prim2SF a) (Prim2SF b)).
  destruct (SFcompare (Prim2SF a) (Prim2SF b)) as [[]|]; simpl; congruence.
Qed.

Lemma above_one_not_negative (s : float) :
  (1 <? s)%float = true -> (s <? 0)%float = false /\ (s <? -1)%float = false.
Proof.
  rewrite !FloatAxioms.ltb_spec. unfold SFltb.
  change (Prim2SF 0) with (S754_zero false).
  change (Prim2SF 1) with (S754_finite false 4503599627370496 (-52)).
  change (Prim2SF (-1)) with (S754_finite true 4503599627370496 (-52)).
  destruct (Prim2SF s) as [sg|sg| |sg m e]; try destruct sg; cbv [SFcompare];
    try discriminate; intros _; split; reflexivity.
Qed.

Lemma is_nan_SF (x : float) : is_nan x = true -> Prim2SF x = S754_nan.
Proof.
  unfold is_nan. rewrite FloatAxioms.eqb_spec. unfold SFeqb.
  destruct (Prim2SF x) as [s|s| |s m e]; cbv [SFcompare]; try reflexivity.
  - discriminate.
  - destruct s; discriminate.
  - destruct s; rewrite Z.compare_refl, Pos.compare_cont_refl; discriminate.
Qed.

(** No comparison with a NaN holds. *)
Lemma nan_compare (x y : float) :
  Prim2SF x = S754_nan ->
  (x <? y)%float = false /\ (y <? x)%float = false /\
  (x <=? y)%float = false /\ (y <=? x)%float = false /\ (x =? y)%float = false.
Proof.
  intros Hx. rewrite !FloatAxioms.ltb_spec, !FloatAxioms.leb_spec, FloatAxioms.eqb_spec, Hx.
  destruct (Prim2SF y); repeat split; reflexivity.
Qed.

(** A NaN operand makes a NaN difference and a NaN quotient. *)
Lemma nan_arith (x y : float) :
  Prim2SF x = S754_nan ->
  Prim2SF (x - y) = S754_nan /\ Prim2SF (y - x) = S754_nan /\
  Prim2SF (x / y) = S754_nan /\ Prim2SF (y / x) = S754_nan /\ Prim2SF (- x) = S754_nan.
Proof.
  intros Hx.
  rewrite !FloatAxioms.sub_spec, !FloatAxioms.div_spec, FloatAxioms.opp_spec, Hx.
  destruct (Prim2SF y); repeat split; reflexivity.
Qed.

(** The difference of a float with itself is a zero or a NaN. *)
Lemma sub_diag_SF (x : float) :
  (exists s, Prim2SF (x - x) = S754_zero s) \/ Prim2SF (x - x) = S754_nan.
Proof.
  rewrite FloatAxioms.sub_spec.
  destruct (Prim2SF x) as [s|s| |s m e]; simpl.
  - left. destruct s; eauto.
  - right. destruct s; reflexivity.
  - right. reflexivity.
  - left. unfold SF64sub, SFsub. rewrite Z.sub_diag. eauto.
Qed.

(** ** One loop per call *)

Lemma ok_bind {A B : Type} (a : A) (f : A -> result B) : (Ok a ≫= f) = f a.
Proof. reflexivity. Qed.

Section OneLoop.
Context `{Arch} `{Display}.

(** The tests of the four octants exclude one another. *)
Lemma DrawLine_as_one_loop (fuel : nat) (c : canvas) (x0 y0 x1 y1 : float) :
  DrawLine fuel c x0 y0 x1 y1 = DrawLine_one_loop fuel c x0 y0 x1 y1.
Proof.
  unfold DrawLine, DrawLine_one_loop, octant_chain, ordered_endpoints.
  destruct (x1 <? x0)%float.
  all: match goal with |- context [(?a - ?b =? 0)%float] => destruct (a - b =? 0)%float end.
  all: try (match goal with |- context [(?a <? ?b)%float] => destruct (a <? b)%float end;
            unfold loop_vertical; apply bind_ext; intros [c' y']; reflexivity).
  all: match goal with |- context [(0 <=? ?s)%float] =>
         destruct (0 <=? s)%float eqn:Hlo; destruct (s <=? 1)%float eqn:Hhi;
         destruct (1 <? s)%float eqn:Hgt; destruct (s <? 0)%float eqn:Hneg;
         destruct (-1 <=? s)%float eqn:Hm; destruct (s <? -1)%float eqn:Hlt
       end.
  all: try (rewrite (leb_ltb_false _ _ Hhi) in Hgt; discriminate).
  all: try (rewrite (leb_ltb_false _ _ Hlo) in Hneg; discriminate).
  all: try (rewrite (nonneg_not_below_minus_one _ Hlo) in Hlt; discriminate).
  all: try (rewrite (proj1 (above_one_not_negative _ Hgt)) in Hneg; discriminate).
  all: try (rewrite (proj2 (above_one_not_negative _ Hgt)) in Hlt; discriminate).
  all: try (rewrite (leb_ltb_false _ _ Hm) in Hlt; discriminate).
  all: simpl andb; cbv iota;
    unfold loop_octant1, loop_octant2, loop_octant8, loop_octant7;
    repeat (rewrite ok_bind; cbv beta iota);
    try reflexivity;
    match goal with |- context [while ?n ?cond ?body ?s] =>
      destruct (while n cond body s) as [[[[c' x'] y'] d']| |]; reflexivity
    end.
Qed.

(** X2. [DrawLine] runs at most one of its five loops: the tests of the four
    octants exclude one another, so the call equals the chain of alternatives
    that takes the vertical loop, else the loop of the first octant whose test
    holds, else returns at once. *)
Theorem DrawLine_runs_one_loop (fuel : nat) (c : canvas) (x0 y0 x1 y1 : float) :
  DrawLine fuel c x0 y0 x1 y1 = DrawLine_one_loop fuel c x0 y0 x1 y1.
Proof. exact (DrawLine_as_one_loop fuel c x0 y0 x1 y1). Qed.

End OneLoop.

(** ** What a call of [DrawLine] does to the canvas *)

Section Canvas.
Context `{Arch} `{Display}.

Lemma octant_chain_nan (fuel : nat) (c : canvas) (A B x0 y0 x1 y1 : float) :
  Prim2SF (A / - B) = S754_nan -> octant_chain fuel c A B x0 y0 x1 y1 = Ok c.
Proof.
  intros Hs. unfold octant_chain.
  destruct (nan_compare (A / - B) 0 Hs) as (E1 & E2 & _ & E4 & _).
  destruct (nan_compare (A / - B) 1 Hs) as (_ & E5 & _).
  destruct (nan_compare (A / - B) (-1) Hs) as (E6 & _).
  rewrite E1, E4, E5, E6. reflexivity.
Qed.

Lemma nan_slope (A B : float) :
  Prim2SF A = S754_nan \/ Prim2SF B = S754_nan -> Prim2SF (A / - B) = S754_nan.
Proof.
  intros [HA | HB].
  - apply (nan_arith A (- B) HA).
  - apply (nan_arith (- B) A). apply (nan_arith B B HB).
Qed.

(** X3. The order in which the endpoints are given does not matter where they
    differ in x, nor, when their x is the same float, where they differ in y:
    [DrawLine] does the same with the endpoints exchanged. *)
Theorem DrawLine_endpoint_order (fuel : nat) (c : canvas) (x0 y0 x1 y1 : float) :
  (x1 <? x0)%float = true \/ (x0 = x1 /\ (y1 <? y0)%float = true) ->
  DrawLine fuel c x0 y0 x1 y1 = DrawLine fuel c x1 y1 x0 y0.
Proof.
  intros [Hx | [-> Hy]].
  - unfold DrawLine. rewrite Hx, (ltb_asym _ _ Hx). reflexivity.
  - rewrite !DrawLine_as_one_loop. unfold DrawLine_one_loop, ordered_endpoints.
    rewrite ltb_irrefl. destruct (x1 - x1 =? 0)%float eqn:HB.
    + rewrite Hy, (ltb_asym _ _ Hy). reflexivity.
    + assert (Hnan : Prim2SF (x1 - x1) = S754_nan).
      { destruct (sub_diag_SF x1) as [[s Hs] | Hs]; [|exact Hs].
        rewrite FloatAxioms.eqb_spec, Hs in HB. destruct s; discriminate. }
      rewrite !octant_chain_nan by (apply nan_slope; right; exact Hnan). reflexivity.
Qed.

(** X4. A NaN among the four coordinates makes [DrawLine] return the canvas
    as it was, with any fuel: nothing is plotted. *)
Theorem DrawLine_nan (fuel : nat) (c : canvas) (x0 y0 x1 y1 : float) :
  is_nan x0 || is_nan y0 || is_nan x1 || is_nan y1 = true ->
  DrawLine fuel c x0 y0 x1 y1 = Ok c.
Proof.
  intros Hnan. rewrite DrawLine_as_one_loop. unfold DrawLine_one_loop.
  assert (Hcases : (Prim2SF x0 = S754_nan \/ Prim2SF x1 = S754_nan) \/
                   (Prim2SF y0 = S754_nan \/ Prim2SF y1 = S754_nan)).
  { rewrite !orb_true_iff in Hnan. destruct Hnan as [[[E|E]|E]|E];
      apply is_nan_SF in E; auto. }
  assert (Hgen : forall a0 b0 a1 b1,
    (Prim2SF a0 = S754_nan \/ Prim2SF a1 = S754_nan) \/
    (Prim2SF b0 = S754_nan \/ Prim2SF b1 = S754_nan) ->
    (if (a0 - a1 =? 0)%float
     then let '(y0, y1) := if (b1 <? b0)%float then (b1, b0) else (b0, b1) in
          loop_vertical fuel a0 y1 (c, y0) ≫= fun s => Ok s.1
     else octant_chain fuel c (b1 - b0) (a0 - a1) a0 b0 a1 b1) = Ok c).
  { intros a0 b0 a1 b1 [Hx | Hy].
    - assert (HB : Prim2SF (a0 - a1) = S754_nan)
        by (destruct Hx as [Hx | Hx]; [apply (nan_arith a0 a1 Hx)|apply (nan_arith a1 a0 Hx)]).
      destruct (nan_compare _ 0 HB) as (_ & _ & _ & _ & ->).
      apply octant_chain_nan, nan_slope. right. exact HB.
    - destruct (a0 - a1 =? 0)%float.
      + assert (Hlt : (b1 <? b0)%float = false /\ (b0 <=? b1)%float = false).
        { destruct Hy as [Hy | Hy].
          - destruct (nan_compare b0 b1 Hy) as (_ & E1 & E2 & _). auto.
          - destruct (nan_compare b1 b0 Hy) as (E1 & _ & _ & E2 & _). auto. }
        destruct Hlt as [-> Hle]. unfold loop_vertical.
        rewrite while_false by exact Hle. reflexivity.
      + apply octant_chain_nan, nan_slope. left.
        destruct Hy as [Hy | Hy]; [apply (nan_arith b0 b1 Hy)|apply (nan_arith b1 b0 Hy)]. }
  unfold ordered_endpoints. destruct (x1 <? x0)%float; apply Hgen; tauto.
Qed.

End Canvas.

(** ** The points plotted and the pixels written *)

(** When the loop returns, each execution of its body has added the point of
    the state it started in, and the points are linked. *)
Lemma while_path {St : Type} (cv : St -> canvas) (pt : St -> float * float)
    (cond : St -> bool) (body : St -> result St) :
  (forall s s', body s = Ok s' ->
     plotted (cv s') = plotted (cv s) ++ [pt s] /\ pixel_step (pt s) (pt s')) ->
  forall fuel s s', while fuel cond body s = Ok s' ->
    exists pts, plotted (cv s') = plotted (cv s) ++ pts /\ path_from (pt s) pts.
Proof.
  intros Hbody. induction fuel as [|n IH]; intros s s'; destruct (cond s) eqn:E.
  - rewrite while_true_0 by exact E. discriminate.
  - rewrite while_false by exact E. intros [= <-]. exists []. rewrite app_nil_r.
    repeat split.
  - rewrite while_true by exact E. destruct (body s) as [s1| |] eqn:Eb; try discriminate.
    rewrite ok_bind. intros Hrun. destruct (Hbody s s1 Eb) as [Hlog Hstep].
    destruct (IH s1 s' Hrun) as (pts & Hpts & Hhead & Hlinked).
    exists (pt s :: pts). split.
    + rewrite Hpts, Hlog, <- app_assoc. reflexivity.
    + split; [reflexivity|]. destruct pts as [|q pts]; [exact I|].
      simpl in Hhead. subst q. split; [exact Hstep|exact Hlinked].
  - rewrite while_false by exact E. intros [= <-]. exists []. rewrite app_nil_r.
    repeat split.
Qed.

(** A loop whose body returns and keeps [P] when started in [P] does not
    panic, and keeps [P]. *)
Lemma while_keeps {St : Type} (P : St -> Prop) (cond : St -> bool) (body : St -> result St) :
  (forall s, P s -> exists s', body s = Ok s' /\ P s') ->
  forall fuel s, P s ->
    while fuel cond body s = OutOfFuel \/ exists s', while fuel cond body s = Ok s' /\ P s'.
Proof.
  intros Hbody. induction fuel as [|n IH]; intros s Hs; destruct (cond s) eqn:E.
  - left. apply while_true_0. exact E.
  - right. exists s. split; [apply while_false; exact E|exact Hs].
  - rewrite while_true by exact E. destruct (Hbody s Hs) as (s1 & -> & Hs1).
    rewrite ok_bind. apply IH. exact Hs1.
  - right. exists s. split; [apply while_false; exact E|exact Hs].
Qed.

Section Pixels.
Context `{Arch} `{Display}.

Lemma painted_from_refl (s : Screen) : painted_from s s.
Proof. split; auto. Qed.

Lemma painted_from_trans (s1 s2 s3 : Screen) :
  painted_from s1 s2 -> painted_from s2 s3 -> painted_from s1 s3.
Proof.
  intros [Hsz1 Hpx1] [Hsz2 Hpx2]. split.
  - intros i. rewrite Hsz2. apply Hsz1.
  - intros row col. destruct (Hpx2 row col) as [E | E]; [|auto].
    rewrite E. apply Hpx1.
Qed.

(** An assignment [screen[row][col] = DefaultDrawColor] that returns. *)
Lemma store_painted (s s' : Screen) (row col : Z) :
  store s row col DefaultDrawColor = Ok s' -> painted_from s s'.
Proof.
  unfold store. destruct (index s row) as [line| |] eqn:Er; try discriminate.
  rewrite ok_bind. destruct (index line col) as [old| |] eqn:Ec; try discriminate.
  rewrite ok_bind. intros [= <-].
  apply index_Ok in Er, Ec. destruct Er as [Hrow Hline], Ec as [Hcol Hold].
  assert (Hlen : (Z.to_nat col < length line)%nat) by (eapply lookup_lt_Some; eauto).
  split.
  - intros i. destruct (decide (Z.to_nat row = i)) as [<- | Hne].
    + rewrite list_lookup_insert_eq by (eapply lookup_lt_Some; eauto).
      rewrite Hline. simpl. rewrite length_insert. reflexivity.
    + rewrite list_lookup_insert_ne by exact Hne. reflexivity.
  - intros r c0.
    destruct (pixel_written s line row col DefaultDrawColor Hrow Hcol Hline Hlen)
      as [Hhere Hother].
    destruct (decide ((r, c0) = (row, col))) as [[= -> ->] | Hne]; [right; exact Hhere|].
    left. apply Hother. exact Hne.
Qed.

Lemma plot_painted (s s' : Screen) (x y : float) :
  plot s x y = Ok s' -> painted_from s s'.
Proof.
  unfold plot. destruct (_ && _).
  - apply store_painted.
  - intros [= <-]. apply painted_from_refl.
Qed.

Lemma plot_call_Ok (c c' : canvas) (x y : float) :
  plot_call c x y = Ok c' ->
  plotted c' = plotted c ++ [(x, y)] /\ painted_from (pixels c) (pixels c').
Proof.
  unfold plot_call. destruct (plot (pixels c) x y) as [s| |] eqn:E; try discriminate.
  rewrite ok_bind. intros [= <-]. split; [reflexivity|]. eapply plot_painted. exact E.
Qed.

Lemma plot_call_returns (c : canvas) (x y : float) :
  screen_fits (pixels c) ->
  exists c', plot_call c x y = Ok c' /\ screen_fits (pixels c').
Proof.
  intros Hfits. destruct (plot_returns (pixels c) x y Hfits) as (s & Hs & Hfits').
  unfold plot_call. rewrite Hs. eexists. split; [reflexivity|exact Hfits'].
Qed.

(** What holds of each of the five loops. *)
Ltac loop_body_Ok :=
  match goal with
  | Hb : (plot_call ?c ?x ?y ≫= _) = Ok _ |- _ =>
      let c1 := fresh "c1" in let E := fresh "E" in
      destruct (plot_call c x y) as [c1| |] eqn:E; try discriminate;
      rewrite ok_bind in Hb; apply plot_call_Ok in E
  end.

Lemma DrawLine_one_loop_path (fuel : nat) (c c' : canvas) (x0 y0 x1 y1 : float) :
  DrawLine_one_loop fuel c x0 y0 x1 y1 = Ok c' ->
  exists pts, plotted c' = plotted c ++ pts /\ path_from (first_point x0 y0 x1 y1) pts.
Proof.
  unfold DrawLine_one_loop, first_point.
  destruct (ordered_endpoints x0 y0 x1 y1) as [[[a0 b0] a1] b1].
  destruct (a0 - a1 =? 0)%float.
  - destruct (b1 <? b0)%float.
    all: match goal with |- context [loop_vertical ?n ?x ?ym (?c0, ?y)] =>
           destruct (loop_vertical n x ym (c0, y)) as [[c2 y2]| |] eqn:E; try discriminate;
           rewrite ok_bind; intros [= <-];
           apply (while_path fst (fun s => (x, s.2))) in E; [exact E|]
         end.
    all: intros [c0 y] [c1 y'] Hb; loop_body_Ok;
      destruct E0 as [Hlog _]; simplify_eq; refine (conj Hlog _);
      unfold pixel_step; simpl; tauto.
  - unfold octant_chain.
    repeat match goal with |- context [if ?b then _ else _] => destruct b end.
    all: try (intros [= <-]; exists []; rewrite app_nil_r; repeat split).
    all: match goal with |- context [?l ?n ?A ?B ?xe ?ye (?c0, ?x, ?y, ?d)] =>
           destruct (l n A B xe ye (c0, x, y, d)) as [[[[c2 x2] y2] d2]| |] eqn:E;
           try discriminate; rewrite ok_bind; intros [= <-];
           apply (while_path (fun s => s.1.1.1) (fun s => (s.1.1.2, s.1.2))) in E; [exact E|]
         end.
    all: intros [[[c0 x] y] d] [[[c1 x'] y'] d'] Hb; loop_body_Ok;
      destruct E0 as [Hlog _];
      match goal with Hb : context [if ?b then _ else _] |- _ => destruct b end;
      simplify_eq; refine (conj Hlog _); unfold pixel_step; simpl; tauto.
Qed.


(** What a returning call leaves of the framebuffer, and that on a framebuffer
    of the display's size no loop panics. *)
Lemma DrawLine_one_loop_painted (fuel : nat) (c c' : canvas) (x0 y0 x1 y1 : float) :
  DrawLine_one_loop fuel c x0 y0 x1 y1 = Ok c' -> painted_from (pixels c) (pixels c').
Proof.
  unfold DrawLine_one_loop.
  destruct (ordered_endpoints x0 y0 x1 y1) as [[[a0 b0] a1] b1].
  destruct (a0 - a1 =? 0)%float.
  - destruct (b1 <? b0)%float.
    all: match goal with |- context [loop_vertical ?n ?x ?ym (?c0, ?y)] =>
           destruct (loop_vertical n x ym (c0, y)) as [[c2 y2]| |] eqn:E; try discriminate;
           rewrite ok_bind; intros [= <-];
           refine (while_invariant (fun s => painted_from (pixels c0) (pixels s.1))
                     _ _ _ n (c0, y) _ (painted_from_refl _) E)
         end.
    all: intros [c0 y] [c1 y'] Hs Hb; loop_body_Ok; destruct E0 as [_ Hp]; simplify_eq;
      exact (painted_from_trans _ _ _ Hs Hp).
  - unfold octant_chain.
    repeat match goal with |- context [if ?b then _ else _] => destruct b end.
    all: try (intros [= <-]; apply painted_from_refl).
    all: match goal with |- context [?l ?n ?A ?B ?xe ?ye (?c0, ?x, ?y, ?d)] =>
           destruct (l n A B xe ye (c0, x, y, d)) as [[[[c2 x2] y2] d2]| |] eqn:E;
           try discriminate; rewrite ok_bind; intros [= <-];
           refine (while_invariant (fun s => painted_from (pixels c0) (pixels s.1.1.1))
                     _ _ _ n (c0, x, y, d) _ (painted_from_refl _) E)
         end.
    all: intros [[[c0 x] y] d] [[[c1 x'] y'] d'] Hs Hb; loop_body_Ok; destruct E0 as [_ Hp];
      match goal with Hb : context [if ?b then _ else _] |- _ => destruct b end;
      simplify_eq; exact (painted_from_trans _ _ _ Hs Hp).
Qed.

Lemma DrawLine_one_loop_no_panic (fuel : nat) (c : canvas) (x0 y0 x1 y1 : float) :
  screen_fits (pixels c) -> DrawLine_one_loop fuel c x0 y0 x1 y1 <> Panic.
Proof.
  intros Hfits. unfold DrawLine_one_loop.
  destruct (ordered_endpoints x0 y0 x1 y1) as [[[a0 b0] a1] b1].
  destruct (a0 - a1 =? 0)%float.
  - destruct (b1 <? b0)%float.
    all: match goal with |- context [loop_vertical ?n ?x ?ym (?c0, ?y)] =>
           destruct (while_keeps (fun s : canvas * float => screen_fits (pixels s.1))
                       (fun '(c, y) => (y <=? ym)%float)
                       (fun '(c, y) => c ← plot_call c x y; Ok (c, (y + 1)%float)))
             with (fuel := n) (s := (c0, y)) as [E | (s' & E & _)];
           [|exact Hfits|unfold loop_vertical; rewrite E; discriminate
            |unfold loop_vertical; rewrite E; discriminate]
         end.
    all: intros [c0 y] Hs; simpl in Hs; cbv beta iota;
      match goal with |- context [plot_call ?cc ?xx ?yy] =>
        destruct (plot_call_returns cc xx yy Hs) as (c1 & E1 & Hc1); rewrite E1
      end;
      eexists; split; try reflexivity; exact Hc1.
  - unfold octant_chain, loop_octant1, loop_octant2, loop_octant8, loop_octant7.
    repeat match goal with |- context [if ?b then _ else _] => destruct b end.
    all: try discriminate.
    all: match goal with |- context [while ?n ?cond ?body (?c0, ?x, ?y, ?d)] =>
           destruct (while_keeps
                       (fun s : canvas * float * float * float => screen_fits (pixels s.1.1.1))
                       cond body)
             with (fuel := n) (s := (c0, x, y, d)) as [E | (s' & E & _)];
           [|exact Hfits|rewrite E; discriminate|rewrite E; discriminate]
         end.
    all: intros [[[c0 x] y] d] Hs; simpl in Hs; cbv beta iota;
      match goal with |- context [plot_call ?cc ?xx ?yy] =>
        destruct (plot_call_returns cc xx yy Hs) as (c1 & E1 & Hc1); rewrite E1
      end;
      rewrite ok_bind;
      match goal with |- context [if ?b then _ else _] => destruct b end;
      eexists; split; try reflexivity; exact Hc1.
Qed.

(** X6. Whatever [DrawLine] draws, it only writes the default draw color:
    when it returns, the framebuffer has the rows it had, each of the length
    it had, and every pixel is as it was or holds [DefaultDrawColor]. *)
Theorem DrawLine_paints_default_only (fuel : nat) (c c' : canvas) (x0 y0 x1 y1 : float) :
  DrawLine fuel c x0 y0 x1 y1 = Ok c' -> painted_from (pixels c) (pixels c').
Proof. rewrite DrawLine_as_one_loop. apply DrawLine_one_loop_painted. Qed.

(** X7. On a framebuffer of at least YRES rows of at least XRES pixels
    [DrawLine] never panics, whatever the coordinates: a point off the screen
    is skipped, and no index leaves the framebuffer. *)
Theorem DrawLine_never_panics (fuel : nat) (c : canvas) (x0 y0 x1 y1 : float) :
  screen_fits (pixels c) -> DrawLine fuel c x0 y0 x1 y1 <> Panic.
Proof. rewrite DrawLine_as_one_loop. apply DrawLine_one_loop_no_panic. Qed.

End Pixels.

(** ** The edge-list drawer *)

Lemma loop_invariant {St : Type} (P : St -> Prop) (cond : St -> result bool)
    (body : St -> result St) :
  (forall s s', P s -> body s = Ok s' -> P s') ->
  forall fuel s s', P s -> loop fuel cond body s = Ok s' -> P s'.
Proof.
  intros Hbody. induction fuel as [|n IH]; intros s s' Hs; rewrite loop_unfold;
    destruct (cond s) as [[|]| |]; simpl; try discriminate.
  - intros [= <-]. exact Hs.
  - destruct (body s) as [s1| |] eqn:Eb; simpl; try discriminate.
    apply IH. eapply Hbody; eauto.
  - intros [= <-]. exact Hs.
Qed.

(** The column [i] of a matrix whose rows all reach it. *)
Lemma extract_column_reached (m : matrix) (i : nat) :
  Forall (fun row => (i < length row)%nat) m ->
  exists col, extract_column m (Z.of_nat i) = Ok col.
Proof.
  induction 1 as [|row m Hrow _ [col IH]]; [eexists; reflexivity|].
  destruct (lookup_lt_is_Some_2 row i Hrow) as [v Hv].
  exists (v :: col). unfold extract_column in *. simpl. rewrite IH.
  replace (index row (Z.of_nat i)) with (Ok v); [reflexivity|].
  symmetry. apply index_Ok. rewrite Nat2Z.id. split; [lia|exact Hv].
Qed.

Lemma extract_column_two_rows (xs ys : list float) (rest : matrix) (i : nat) (x y : float) :
  Forall (fun row => length row = length xs) (ys :: rest) ->
  xs !! i = Some x -> ys !! i = Some y ->
  exists col, extract_column (xs :: ys :: rest) (Z.of_nat i) = Ok (x :: y :: col).
Proof.
  intros Hrect Hx Hy.
  assert (Hi : (i < length xs)%nat) by (eapply lookup_lt_Some; eauto).
  destruct (extract_column_reached rest i) as [col Hcol].
  { apply Forall_cons in Hrect. destruct Hrect as [_ Hrect].
    eapply Forall_impl; [exact Hrect|]. simpl. intros row ->. exact Hi. }
  exists col. unfold extract_column in *. simpl. rewrite Hcol.
  replace (index xs (Z.of_nat i)) with (Ok x)
    by (symmetry; apply index_Ok; rewrite Nat2Z.id; split; [lia|exact Hx]).
  replace (index ys (Z.of_nat i)) with (Ok y)
    by (symmetry; apply index_Ok; rewrite Nat2Z.id; split; [lia|exact Hy]).
  reflexivity.
Qed.

Lemma segments_cons (x0 x1 y0 y1 : float) (xs ys : list float) :
  segments (x0 :: x1 :: xs) (y0 :: y1 :: ys) =
  (x0, y0, x1, y1) :: segments (x1 :: xs) (y1 :: ys).
Proof. reflexivity. Qed.

Lemma wrap_small (z : Z) : - 2 ^ 63 <= z < 2 ^ 63 -> wrap z = z.
Proof.
  unfold wrap. change (2 ^ 63) with 9223372036854775808.
  change (2 ^ 64) with 18446744073709551616. intros Hz.
  rewrite Z.mod_small by lia. lia.
Qed.

Section Drawer.
Context `{Arch} `{Display} `{MatrixPkg}.

(** The loop of [DrawLines] from column [i] on. *)
Lemma DrawLines_from (fuel : nat) (xs ys : list float) (rest : matrix) :
  (forall i, ExtractColumn (xs :: ys :: rest) i = extract_column (xs :: ys :: rest) i) ->
  Forall (fun row => length row = length xs) (ys :: rest) ->
  Z.of_nat (length xs) < 2 ^ 63 ->
  forall (k n i : nat) (c : canvas),
    (i + k + 1 = length xs)%nat -> (k <= n)%nat ->
    (loop n
       (fun '(i, c) => row ← index (xs :: ys :: rest) 0;
                       Ok (i <? wrap (Z.of_nat (length row) - 1)))
       (fun '(i, c) =>
          point ← ExtractColumn (xs :: ys :: rest) i;
          nextPoint ← ExtractColumn (xs :: ys :: rest) (wrap (i + 1));
          x0 ← index point 0; y0 ← index point 1;
          x1 ← index nextPoint 0; y1 ← index nextPoint 1;
          c ← DrawLine fuel c x0 y0 x1 y1;
          Ok (wrap (i + 1), c))
       (Z.of_nat i, c) ≫= fun '(_, c) => Ok c)
    = draw_each fuel c (segments (drop i xs) (drop i ys)).
Proof.
  intros Hext Hrect Hlen.
  assert (Hys : length ys = length xs) by (apply Forall_cons in Hrect; tauto).
  match goal with |- context [loop _ ?cnd ?bdy] => set (cond := cnd); set (body := bdy) end.
  assert (Hcond : forall (j : nat) c,
             cond (Z.of_nat j, c) = Ok (Z.of_nat j <? Z.of_nat (length xs) - 1)).
  { intros j c. unfold cond. simpl. rewrite wrap_small by lia. reflexivity. }
  assert (Hbody : forall (j : nat) c x0 y0 x1 y1,
             xs !! j = Some x0 -> ys !! j = Some y0 ->
             xs !! S j = Some x1 -> ys !! S j = Some y1 ->
             body (Z.of_nat j, c) =
             (c' ← DrawLine fuel c x0 y0 x1 y1; Ok (Z.of_nat (S j), c'))).
  { intros j c x0 y0 x1 y1 Hx0 Hy0 Hx1 Hy1.
    assert (Hj : (S j < length xs)%nat) by (eapply lookup_lt_Some; eauto).
    destruct (extract_column_two_rows xs ys rest j x0 y0 Hrect Hx0 Hy0) as [col0 Hc0].
    destruct (extract_column_two_rows xs ys rest (S j) x1 y1 Hrect Hx1 Hy1) as [col1 Hc1].
    unfold body. rewrite (wrap_small (Z.of_nat j + 1)) by lia.
    replace (Z.of_nat j + 1) with (Z.of_nat (S j)) by lia.
    rewrite !Hext, Hc0, Hc1. reflexivity. }
  clearbody cond body.
  induction k as [|k IH]; intros n i c Hi Hk; rewrite loop_unfold, Hcond, ok_bind.
  - destruct (Z.ltb_spec (Z.of_nat i) (Z.of_nat (length xs) - 1)); [lia|].
    rewrite ok_bind.
    destruct (drop i xs) as [|x [|x' t]] eqn:Ed; try reflexivity.
    apply (f_equal length) in Ed. rewrite length_drop in Ed. simpl in Ed. lia.
  - destruct (Z.ltb_spec (Z.of_nat i) (Z.of_nat (length xs) - 1)); [|lia].
    destruct n as [|n]; [lia|].
    destruct (lookup_lt_is_Some_2 xs i) as [x0 Hx0]; [lia|].
    destruct (lookup_lt_is_Some_2 xs (S i)) as [x1 Hx1]; [lia|].
    destruct (lookup_lt_is_Some_2 ys i) as [y0 Hy0]; [lia|].
    destruct (lookup_lt_is_Some_2 ys (S i)) as [y1 Hy1]; [lia|].
    rewrite (Hbody i c x0 y0 x1 y1 Hx0 Hy0 Hx1 Hy1).
    rewrite (drop_S xs x0 i Hx0), (drop_S ys y0 i Hy0).
    rewrite (drop_S xs x1 (S i) Hx1), (drop_S ys y1 (S i) Hy1), segments_cons.
    rewrite <- (drop_S xs x1 (S i) Hx1), <- (drop_S ys y1 (S i) Hy1).
    simpl draw_each.
    destruct (DrawLine fuel c x0 y0 x1 y1) as [c1| |]; try reflexivity.
    rewrite !ok_bind. apply IH; lia.
Qed.

Lemma DrawLines_as_polyline (fuel : nat) (xs ys : list float) (rest : matrix) (c : canvas) :
  (forall i, ExtractColumn (xs :: ys :: rest) i = extract_column (xs :: ys :: rest) i) ->
  Forall (fun row => length row = length xs) (ys :: rest) ->
  Z.of_nat (length xs) < 2 ^ 63 ->
  (length xs <= S fuel)%nat ->
  DrawLines fuel (xs :: ys :: rest) c = draw_each fuel c (segments xs ys).
Proof.
  intros Hext Hrect Hlen Hfuel. destruct xs as [|x xs'] eqn:Exs.
  - unfold DrawLines. rewrite loop_unfold. reflexivity.
  - rewrite <- Exs in *. unfold DrawLines.
    change (segments xs ys) with (segments (drop 0 xs) (drop 0 ys)).
    apply (DrawLines_from fuel xs ys rest Hext Hrect Hlen (length xs - 1) fuel 0 c).
    + rewrite Exs. simpl. lia.
    + lia.
Qed.

(** X9. [DrawLines] draws a polyline: on a matrix whose rows have one length,
    with enough fuel for its columns, it calls [DrawLine] from each column to
    the next, in order, on the x and y of rows 0 and 1, and stops at the first
    call that does not return.  ([ExtractColumn] is taken to return the
    entries of the column.) *)
Theorem DrawLines_polyline (fuel : nat) (xs ys : list float) (rest : matrix) (c : canvas) :
  (forall i, ExtractColumn (xs :: ys :: rest) i = extract_column (xs :: ys :: rest) i) ->
  Forall (fun row => length row = length xs) (ys :: rest) ->
  Z.of_nat (length xs) < 2 ^ 63 ->
  (length xs <= S fuel)%nat ->
  DrawLines fuel (xs :: ys :: rest) c = draw_each fuel c (segments xs ys).
Proof. exact (DrawLines_as_polyline fuel xs ys rest c). Qed.

(** X10. Two edges added to an empty matrix are drawn as three segments: the
    two edges, and between them the segment that joins the end of the first
    edge to the start of the second. *)
Theorem DrawLines_joins_edges (fuel : nat) (c : canvas)
    (x0 y0 z0 x1 y1 z1 x2 y2 z2 x3 y3 z3 : float) (m1 m2 : matrix) :
  (forall m i, ExtractColumn m i = extract_column m i) ->
  (3 <= fuel)%nat ->
  AddEdge empty_matrix [x0; y0; z0; x1; y1; z1] = Ok m1 ->
  AddEdge m1 [x2; y2; z2; x3; y3; z3] = Ok m2 ->
  DrawLines fuel m2 c =
  draw_each fuel c [(x0, y0, x1, y1); (x1, y1, x2, y2); (x2, y2, x3, y3)].
Proof.
  intros Hext Hfuel [= <-] [= <-].
  apply (DrawLines_as_polyline fuel [x0; x1; x2; x3] [y0; y1; y2; y3]).
  - intros i. apply Hext.
  - repeat constructor.
  - simpl. lia.
  - simpl. lia.
Qed.

(** X11. Whatever [DrawLines] draws, it only adds to the canvas: when it
    returns, the framebuffer has the rows it had, each of the length it had,
    every pixel is as it was or holds [DefaultDrawColor], and the points
    plotted before are still recorded, in order, before the new ones. *)
Theorem DrawLines_paints_default_only (fuel : nat) (edges : matrix) (c c' : canvas) :
  DrawLines fuel edges c = Ok c' ->
  painted_from (pixels c) (pixels c') /\ exists pts, plotted c' = plotted c ++ pts.
Proof.
  unfold DrawLines.
  match goal with |- context [loop _ ?cnd ?bdy ?s] =>
    destruct (loop fuel cnd bdy s) as [[i c1]| |] eqn:E; try discriminate
  end.
  rewrite ok_bind. intros [= <-].
  refine (loop_invariant
            (fun s : Z * canvas =>
               painted_from (pixels c) (pixels (snd s)) /\
               exists pts, plotted (snd s) = plotted c ++ pts)
            _ _ _ fuel (0, c) _ _ E).
  - intros [j c0] [j' c2] [Hp [pts Hpts]]. simpl in Hp, Hpts.
    destruct (ExtractColumn edges j) as [point| |]; try discriminate.
    rewrite ok_bind.
    destruct (ExtractColumn edges (wrap (j + 1))) as [nextPoint| |]; try discriminate.
    rewrite ok_bind.
    destruct (index point 0) as [a0| |]; try discriminate. rewrite ok_bind.
    destruct (index point 1) as [b0| |]; try discriminate. rewrite ok_bind.
    destruct (index nextPoint 0) as [a1| |]; try discriminate. rewrite ok_bind.
    destruct (index nextPoint 1) as [b1| |]; try discriminate. rewrite ok_bind.
    destruct (DrawLine fuel c0 a0 b0 a1 b1) as [c3| |] eqn:Ed; try discriminate.
    rewrite ok_bind. intros [= <- <-]. simpl.
    rewrite DrawLine_as_one_loop in Ed. split.
    + eapply painted_from_trans; [exact Hp|]. eapply DrawLine_one_loop_painted. exact Ed.
    + destruct (DrawLine_one_loop_path _ _ _ _ _ _ _ Ed) as (pts' & Hpts' & _).
      exists (pts ++ pts'). rewrite Hpts', Hpts, app_assoc. reflexivity.
  - split; [apply painted_from_refl|]. exists []. rewrite app_nil_r. reflexivity.
Qed.

End Drawer.

(** ** More on the builders *)

(** When a loop returns, its condition is false. *)
Lemma while_exit {St : Type} (cond : St -> bool) (body : St -> result St) :
  forall fuel s s', while fuel cond body s = Ok s' -> cond s' = false.
Proof.
  induction fuel as [|n IH]; intros s s'; destruct (cond s) eqn:E.
  - rewrite while_true_0 by exact E. discriminate.
  - rewrite while_false by exact E. intros [= <-]. exact E.
  - rewrite while_true by exact E. destruct (body s) as [s1| |]; try discriminate.
    rewrite ok_bind. apply IH.
  - rewrite while_false by exact E. intros [= <-]. exact E.
Qed.

Lemma add_zero_step (step : float) : (step =? 0)%float = true -> (0 + step)%float = 0%float.
Proof.
  rewrite FloatAxioms.eqb_spec. unfold SFeqb. intros Heq.
  destruct (SFcompare (Prim2SF step) (Prim2SF 0)) as [[]|] eqn:Hc; try discriminate.
  apply SFcompare_Eq_inv in Hc. apply Prim2SF_inj. rewrite FloatAxioms.add_spec.
  destruct Hc as [-> | (sa & sb & -> & _)]; [reflexivity|]. destruct sa; reflexivity.
Qed.

Lemma add_zero_left (step : float) : (1 <=? step)%float = true -> (0 + step)%float = step.
Proof.
  rewrite FloatAxioms.leb_spec. unfold SFleb.
  change (Prim2SF 1) with (S754_finite false 4503599627370496 (-52)).
  intros Hle. apply Prim2SF_inj. rewrite FloatAxioms.add_spec.
  change (Prim2SF 0) with (S754_zero false).
  destruct (Prim2SF step) as [s|s| |s m e]; try reflexivity;
    cbv [SFcompare] in Hle; try destruct s; discriminate.
Qed.

Section Builders.
Context `{Arch} `{MathPkg} `{MatrixPkg}.

(** X12. [AddPoint] returns exactly on the matrices of at least four rows: it
    appends to the first four, whatever their lengths, leaves any further
    row alone, and panics on a matrix of fewer rows. *)
Theorem AddPoint_four_rows (m : matrix) (x y z : float) :
  (forall m', AddPoint m x y z = Ok m' <->
     exists r0 r1 r2 r3 more,
       m = r0 :: r1 :: r2 :: r3 :: more /\
       m' = (r0 ++ [x]) :: (r1 ++ [y]) :: (r2 ++ [z]) :: (r3 ++ [1%float]) :: more) /\
  (AddPoint m x y z = Panic <-> (length m < 4)%nat).
Proof.
  split.
  - intros m'. split; [apply AddPoint_Ok_inv|].
    intros (r0 & r1 & r2 & r3 & more & -> & ->). apply AddPoint_rows.
  - destruct m as [|r0 [|r1 [|r2 [|r3 more]]]]; simpl; split; intros Hp;
      try reflexivity; try lia.
    rewrite AddPoint_rows in Hp. discriminate.
Qed.

(** X13. [AddCircle] panics when given fewer than four values, and, given
    four or more, when the matrix has fewer than four rows. *)
Theorem AddCircle_panics (fuel : nat) (m : matrix) (params : list float) :
  ((length params < 4)%nat -> AddCircle fuel m params = Panic) /\
  ((4 <= length params)%nat -> (length m < 4)%nat -> AddCircle (S fuel) m params = Panic).
Proof.
  split.
  - intros Hlen. unfold AddCircle.
    destruct params as [|cx [|cy [|cz [|r extra]]]]; simpl in Hlen; try lia; reflexivity.
  - intros Hlen Hm. unfold AddCircle.
    destruct params as [|cx [|cy [|cz [|r extra]]]]; simpl in Hlen; try lia.
    change (index (cx :: cy :: cz :: r :: extra) 0) with (Ok cx).
    change (index (cx :: cy :: cz :: r :: extra) 1) with (Ok cy).
    change (index (cx :: cy :: cz :: r :: extra) 2) with (Ok cz).
    change (index (cx :: cy :: cz :: r :: extra) 3) with (Ok r).
    rewrite !ok_bind. rewrite while_true by reflexivity.
    destruct m as [|r0 [|r1 [|r2 [|r3 more]]]]; simpl in Hm; try lia; reflexivity.
Qed.

Lemma CubicEval_short_row (x : float) (coefs : matrix) :
  (forall row rows, coefs = row :: rows -> (length row < 4)%nat) ->
  CubicEval x coefs = Panic.
Proof.
  intros Hshort. destruct coefs as [|row rows]; [reflexivity|].
  specialize (Hshort row rows eq_refl).
  destruct row as [|c0 [|c1 [|c2 [|c3 more]]]]; simpl in Hshort; try lia; reflexivity.
Qed.

Lemma CubicEval_row (t c0 c1 c2 c3 : float) (more : list float) (rows : matrix) :
  CubicEval t ((c0 :: c1 :: c2 :: c3 :: more) :: rows) = Ok (cubic c0 c1 c2 c3 t).
Proof. reflexivity. Qed.

(** X14. [CubicEval] returns exactly when the first row of coefficients has
    at least four entries, and then gives the cubic of the first four, highest
    degree first, summed from the left starting at 0, with the powers taken by
    [math.Pow]; further entries and further rows are not read.  With no row,
    or a first row of fewer than four entries, it panics. *)
Theorem CubicEval_first_row (x : float) (coefs : matrix) :
  (forall v, CubicEval x coefs = Ok v <->
     exists c0 c1 c2 c3 more rows,
       coefs = (c0 :: c1 :: c2 :: c3 :: more) :: rows /\ v = cubic c0 c1 c2 c3 x) /\
  (CubicEval x coefs = Panic <->
     forall row rows, coefs = row :: rows -> (length row < 4)%nat).
Proof.
  split.
  - intros v. split.
    + destruct coefs as [|[|c0 [|c1 [|c2 [|c3 more]]]] rows]; try discriminate.
      rewrite CubicEval_row. intros [= <-]. eauto 10.
    + intros (c0 & c1 & c2 & c3 & more & rows & -> & ->). apply CubicEval_row.
  - split; [|apply CubicEval_short_row].
    destruct coefs as [|[|c0 [|c1 [|c2 [|c3 more]]]] rows]; intros Hp row' rows' E;
      try discriminate E; injection E as <- <-; simpl; try lia.
    rewrite CubicEval_row in Hp. discriminate.
Qed.

(** The loop of [AddCurve] on rows of coefficients that have four entries. *)
Lemma curve_points_samples (fuel : nat) (r0 r1 r2 r3 : list float) (more : matrix)
    (x0 y0 x1 y1 x2 y2 x3 y3 step : float) (gen : matrix)
    (xs' ys' arows brows : matrix) (a0 a1 a2 a3 b0 b1 b2 b3 : float) (am bm ts : list float) :
  MultiplyMatrices [[x0; x1; x2; x3]] (copy (NewMatrix 4 4) gen) =
    Ok (xs', (a0 :: a1 :: a2 :: a3 :: am) :: arows) ->
  MultiplyMatrices [[y0; y1; y2; y3]] (copy (NewMatrix 4 4) gen) =
    Ok (ys', (b0 :: b1 :: b2 :: b3 :: bm) :: brows) ->
  param_values fuel 0 step = Some ts ->
  curve_points fuel (r0 :: r1 :: r2 :: r3 :: more) x0 y0 x1 y1 x2 y2 x3 y3 step gen =
  Ok ((r0 ++ map (cubic a0 a1 a2 a3) ts)
      :: (r1 ++ map (cubic b0 b1 b2 b3) ts)
      :: (r2 ++ map (fun _ => 0%float) ts)
      :: (r3 ++ map (fun _ => 1%float) ts)
      :: more).
Proof.
  intros Hx Hy Hts. unfold curve_points. rewrite Hx, ok_bind. cbv beta iota.
  rewrite Hy, ok_bind. cbv beta iota.
  exact (sampling_loop (cubic a0 a1 a2 a3) (cubic b0 b1 b2 b3) step fuel 0
           r0 r1 r2 r3 more ts Hts).
Qed.

(** X15. For the two supported curve types [AddCurve] appends one point per
    value of its loop variable [t = 0, step, step + step, ...] below 1, as
    float addition gives them: the point [(X t, Y t, 0)] with w = 1, where [X]
    and [Y] are the cubics of the first four entries of row 0 of what
    [MultiplyMatrices] leaves in its second operand.  (The basis is the one
    the code selects: [MakeBezier] for "hermite", [MakeHermite] for
    "bezier".) *)
Theorem AddCurve_samples (fuel : nat) (r0 r1 r2 r3 : list float) (more : matrix)
    (x0 y0 x1 y1 x2 y2 x3 y3 step : float) (curveType : string) (gen : matrix)
    (xs' ys' arows brows : matrix) (a0 a1 a2 a3 b0 b1 b2 b3 : float) (am bm ts : list float) :
  (curveType = "hermite" /\ gen = MakeBezier) \/ (curveType = "bezier" /\ gen = MakeHermite) ->
  MultiplyMatrices [[x0; x1; x2; x3]] (copy (NewMatrix 4 4) gen) =
    Ok (xs', (a0 :: a1 :: a2 :: a3 :: am) :: arows) ->
  MultiplyMatrices [[y0; y1; y2; y3]] (copy (NewMatrix 4 4) gen) =
    Ok (ys', (b0 :: b1 :: b2 :: b3 :: bm) :: brows) ->
  param_values fuel 0 step = Some ts ->
  AddCurve fuel (r0 :: r1 :: r2 :: r3 :: more) x0 y0 x1 y1 x2 y2 x3 y3 step curveType =
  ([], Ok ((r0 ++ map (cubic a0 a1 a2 a3) ts)
           :: (r1 ++ map (cubic b0 b1 b2 b3) ts)
           :: (r2 ++ map (fun _ => 0%float) ts)
           :: (r3 ++ map (fun _ => 1%float) ts)
           :: more)).
Proof.
  intros [[-> ->] | [-> ->]] Hx Hy Hts; unfold AddCurve; simpl; f_equal;
    eapply curve_points_samples; eauto.
Qed.

(** X16. With a step of 1 or more [AddCurve] appends exactly one point, the
    start of the curve at [t = 0]: the loop variable leaves [0, 1) at its
    first increment. *)
Theorem AddCurve_wide_step (fuel : nat) (r0 r1 r2 r3 : list float) (more : matrix)
    (x0 y0 x1 y1 x2 y2 x3 y3 step : float) (curveType : string) (gen : matrix)
    (xs' ys' arows brows : matrix) (a0 a1 a2 a3 b0 b1 b2 b3 : float) (am bm : list float) :
  (1 <=? step)%float = true ->
  (curveType = "hermite" /\ gen = MakeBezier) \/ (curveType = "bezier" /\ gen = MakeHermite) ->
  MultiplyMatrices [[x0; x1; x2; x3]] (copy (NewMatrix 4 4) gen) =
    Ok (xs', (a0 :: a1 :: a2 :: a3 :: am) :: arows) ->
  MultiplyMatrices [[y0; y1; y2; y3]] (copy (NewMatrix 4 4) gen) =
    Ok (ys', (b0 :: b1 :: b2 :: b3 :: bm) :: brows) ->
  AddCurve (S fuel) (r0 :: r1 :: r2 :: r3 :: more) x0 y0 x1 y1 x2 y2 x3 y3 step curveType =
  ([], Ok ((r0 ++ [cubic a0 a1 a2 a3 0])
           :: (r1 ++ [cubic b0 b1 b2 b3 0])
           :: (r2 ++ [0%float])
           :: (r3 ++ [1%float])
           :: more)).
Proof.
  intros Hstep [[-> ->] | [-> ->]] Hx Hy; unfold AddCurve; simpl; f_equal;
    apply (curve_points_samples (S fuel) r0 r1 r2 r3 more x0 y0 x1 y1 x2 y2 x3 y3 step _
             xs' ys' arows brows a0 a1 a2 a3 b0 b1 b2 b3 am bm [0%float] Hx Hy).
  all: change (param_values (S fuel) 0 step)
         with (cons 0%float <$> param_values fuel (0 + step) step);
    rewrite (add_zero_left step Hstep);
    destruct fuel; simpl; rewrite (leb_ltb_false _ _ Hstep); reflexivity.
Qed.

(** X17. With a step equal to 0 [AddCurve] returns for an unknown curve type
    only: for "hermite" and "bezier" the loop variable stays at 0 and the loop
    never ends, so the call panics or runs for ever. *)
Theorem AddCurve_step_zero (fuel : nat) (m m' : matrix)
    (x0 y0 x1 y1 x2 y2 x3 y3 step : float) (curveType : string) (out : list string) :
  (step =? 0)%float = true ->
  AddCurve fuel m x0 y0 x1 y1 x2 y2 x3 y3 step curveType = (out, Ok m') ->
  curveType <> "hermite" /\ curveType <> "bezier".
Proof.
  intros Hstep.
  assert (Hstuck : forall gen,
            curve_points fuel m x0 y0 x1 y1 x2 y2 x3 y3 step gen <> Ok m').
  { intros gen. unfold curve_points.
    destruct (MultiplyMatrices [[x0; x1; x2; x3]] _) as [[xs xc]| |]; try discriminate.
    rewrite ok_bind. cbv beta iota.
    destruct (MultiplyMatrices [[y0; y1; y2; y3]] _) as [[ys yc]| |]; try discriminate.
    rewrite ok_bind. cbv beta iota.
    destruct (while fuel _ _ _) as [[t m1]| |] eqn:E; try discriminate.
    exfalso.
    pose proof (while_exit _ _ _ _ _ E) as Hexit.
    assert (Ht : (t, m1).1 = 0%float).
    { refine (while_invariant (fun s : float * matrix => s.1 = 0%float) _ _ _ fuel
                (0%float, m) _ eq_refl E).
      intros [t0 m0] s'. simpl. intros ->.
      destruct (CubicEval 0 xc) as [x| |]; try discriminate.
      destruct (CubicEval 0 yc) as [y| |]; try discriminate.
      rewrite !ok_bind. destruct (AddPoint m0 x y 0) as [m2| |]; try discriminate.
      rewrite ok_bind. intros [= <-]. simpl. apply add_zero_step. exact Hstep. }
    simpl in Ht. subst t. discriminate Hexit. }
  unfold AddCurve.
  destruct (String.eqb_spec curveType "hermite") as [-> | Hh].
  - intros [= _ E]. destruct (Hstuck _ E).
  - destruct (String.eqb_spec curveType "bezier") as [-> | Hb].
    + intros [= _ E]. destruct (Hstuck _ E).
    + intros _. split; assumption.
Qed.

End Builders.

(** ** Plotting twice, and rounding whole numbers *)

(** What an assignment [screen[row][col] = v] that returns has done. *)
Lemma store_Ok (s s' : Screen) (row col : Z) (v : color) :
  store s row col v = Ok s' <->
  exists line, 0 <= row /\ 0 <= col /\ s !! Z.to_nat row = Some line /\
    (Z.to_nat col < length line)%nat /\
    s' = <[Z.to_nat row := <[Z.to_nat col := v]> line]> s.
Proof.
  unfold store. split.
  - destruct (index s row) as [line| |] eqn:Er; try discriminate. rewrite ok_bind.
    destruct (index line col) as [old| |] eqn:Ec; try discriminate. rewrite ok_bind.
    intros [= <-]. apply index_Ok in Er, Ec. destruct Er as [Hr Hline], Ec as [Hc Hold].
    exists line. repeat split; try assumption. eapply lookup_lt_Some; eauto.
  - intros (line & Hr & Hc & Hline & Hlen & ->).
    destruct (lookup_lt_is_Some_2 line (Z.to_nat col) Hlen) as [old Hold].
    replace (index s row) with (Ok line) by (symmetry; apply index_Ok; auto).
    rewrite ok_bind.
    replace (index line col) with (Ok old) by (symmetry; apply index_Ok; auto).
    reflexivity.
Qed.

Lemma store_twice (s s1 : Screen) (row col : Z) (v : color) :
  store s row col v = Ok s1 -> store s1 row col v = Ok s1.
Proof.
  intros Hst. apply store_Ok in Hst. destruct Hst as (line & Hr & Hc & Hline & Hlen & ->).
  assert (Hrow : (Z.to_nat row < length s)%nat) by (eapply lookup_lt_Some; eauto).
  apply store_Ok. exists (<[Z.to_nat col := v]> line). repeat split; try assumption.
  - apply list_lookup_insert_eq. exact Hrow.
  - rewrite length_insert. exact Hlen.
  - rewrite !list_insert_insert_eq. reflexivity.
Qed.

Lemma store_exchange (s s1 s2 : Screen) (r1 c1 r2 c2 : Z) (v : color) :
  store s r1 c1 v = Ok s1 -> store s1 r2 c2 v = Ok s2 ->
  exists s1', store s r2 c2 v = Ok s1' /\ store s1' r1 c1 v = Ok s2.
Proof.
  intros H1 H2. apply store_Ok in H1, H2.
  destruct H1 as (l1 & Hr1 & Hc1 & Hl1 & Hn1 & ->).
  destruct H2 as (l2 & Hr2 & Hc2 & Hl2 & Hn2 & ->).
  assert (Hlt1 : (Z.to_nat r1 < length s)%nat) by (eapply lookup_lt_Some; eauto).
  destruct (decide (Z.to_nat r1 = Z.to_nat r2)) as [E | Hne].
  - rewrite <- E in *. rewrite list_lookup_insert_eq in Hl2 by exact Hlt1.
    injection Hl2 as <-. rewrite length_insert in Hn2.
    exists (<[Z.to_nat r1 := <[Z.to_nat c2 := v]> l1]> s). split.
    + apply store_Ok. exists l1. rewrite <- E. repeat split; assumption.
    + apply store_Ok. exists (<[Z.to_nat c2 := v]> l1). repeat split; try assumption.
      * apply list_lookup_insert_eq. exact Hlt1.
      * rewrite length_insert. exact Hn1.
      * rewrite !list_insert_insert_eq. f_equal.
        destruct (decide (Z.to_nat c1 = Z.to_nat c2)) as [-> | Hc].
        -- rewrite !list_insert_insert_eq. reflexivity.
        -- apply list_insert_insert_ne. congruence.
  - rewrite list_lookup_insert_ne in Hl2 by exact Hne.
    exists (<[Z.to_nat r2 := <[Z.to_nat c2 := v]> l2]> s). split.
    + apply store_Ok. exists l2. repeat split; assumption.
    + apply store_Ok. exists l1. repeat split; try assumption.
      * rewrite list_lookup_insert_ne by congruence. exact Hl1.
      * apply list_insert_insert_ne. congruence.
Qed.

Section Plotting.
Context `{Arch} `{Display}.

(** X18. Plotting a point again changes nothing, and two points may be
    plotted in either order: the framebuffer that results is the same. *)
Theorem plot_order_free (s s1 s2 : Screen) (x y x' y' : float) :
  plot s x y = Ok s1 ->
  plot s1 x' y' = Ok s2 ->
  plot s1 x y = Ok s1 /\
  exists s1', plot s x' y' = Ok s1' /\ plot s1' x y = Ok s2.
Proof.
  unfold plot. intros H1 H2. split.
  - destruct (_ && _); [eapply store_twice; exact H1|reflexivity].
  - destruct (_ && _); destruct (_ && _).
    + eapply store_exchange; eauto.
    + injection H2 as <-. exists s. split; [reflexivity|exact H1].
    + injection H1 as <-. exists s2. split; [exact H2|reflexivity].
    + injection H1 as <-. injection H2 as <-. exists s. split; reflexivity.
Qed.

(** X19. A finite float that is a whole number, one that the conversion to
    [int] and back gives again, is rounded to itself: [float64ToInt] returns
    its conversion to [int]. *)
Theorem float64ToInt_whole (f : float) :
  is_finite f = true ->
  float_of_int (int_of_float f) = f ->
  float64ToInt f = int_of_float f.
Proof.
  intros Hfin Hwhole. unfold float64ToInt. rewrite Hwhole.
  assert (Hzero : exists s, Prim2SF (f - f) = S754_zero s).
  { rewrite FloatAxioms.sub_spec.
    destruct (is_finite_SF f Hfin) as [[s ->] | (s & m & e & ->)].
    - destruct s; eexists; reflexivity.
    - unfold SF64sub, SFsub. rewrite Z.sub_diag. eexists. reflexivity. }
  destruct Hzero as [s Hs].
  rewrite FloatAxioms.ltb_spec, Hs. reflexivity.
Qed.

End Plotting.

(** ** When [DrawLine] returns *)

(** A loop driven by a counter returns once the counter has left its range,
    if its body returns. *)
Lemma while_leaves {St : Type} (P : St -> Prop) (k : St -> float)
    (inside : float -> bool) (next : float -> float)
    (cond : St -> bool) (body : St -> result St) :
  (forall s, cond s = true -> inside (k s) = true) ->
  (forall s s', body s = Ok s' -> k s' = next (k s)) ->
  (forall s, P s -> exists s', body s = Ok s' /\ P s') ->
  forall fuel s, P s -> leaves fuel inside next (k s) = true ->
    exists s', while fuel cond body s = Ok s' /\ P s'.
Proof.
  intros Hin Hnext Hbody. induction fuel as [|n IH]; intros s Hs Hleave;
    destruct (cond s) eqn:E.
  - simpl in Hleave. rewrite (Hin s E) in Hleave. discriminate.
  - exists s. split; [apply while_false; exact E|exact Hs].
  - simpl in Hleave. rewrite (Hin s E) in Hleave.
    destruct (Hbody s Hs) as (s1 & Eb & Hs1).
    rewrite while_true by exact E. rewrite Eb, ok_bind.
    apply IH; [exact Hs1|]. rewrite (Hnext s s1 Eb). exact Hleave.
  - exists s. split; [apply while_false; exact E|exact Hs].
Qed.

Section Returns.
Context `{Arch} `{Display}.

Ltac body_returns Hs :=
  simpl in Hs; cbv beta iota;
  match goal with |- context [plot_call ?cc ?xx ?yy] =>
    let c1 := fresh "c1" in let E1 := fresh "E1" in let Hc1 := fresh "Hc1" in
    destruct (plot_call_returns cc xx yy Hs) as (c1 & E1 & Hc1); rewrite E1, ok_bind;
    try match goal with |- context [if ?b then _ else _] => destruct b end;
    eexists; split; try reflexivity; exact Hc1
  end.

Ltac body_counts :=
  cbv beta iota;
  match goal with |- (plot_call ?cc ?xx ?yy ≫= _) = _ -> _ =>
    destruct (plot_call cc xx yy); try discriminate; rewrite ok_bind;
    try match goal with |- context [if ?b then _ else _] => destruct b end;
    intros [= <-]; intros; subst; reflexivity
  end.

Lemma DrawLine_one_loop_returns (fuel : nat) (c : canvas) (x0 y0 x1 y1 : float) :
  screen_fits (pixels c) ->
  enough_fuel fuel x0 y0 x1 y1 = true ->
  exists c', DrawLine_one_loop fuel c x0 y0 x1 y1 = Ok c'.
Proof.
  intros Hfits. unfold enough_fuel, DrawLine_one_loop.
  destruct (ordered_endpoints x0 y0 x1 y1) as [[[a0 b0] a1] b1].
  destruct (a0 - a1 =? 0)%float.
  - destruct (b1 <? b0)%float; intros Hfuel.
    all: match goal with |- context [loop_vertical ?n ?x ?ym (?c0, ?y)] =>
           destruct (while_leaves (fun s : canvas * float => screen_fits (pixels s.1)) snd
                       (fun v => (v <=? ym)%float) (fun v => (v + 1)%float)
                       (fun '(c, y) => (y <=? ym)%float)
                       (fun '(c, y) => c ← plot_call c x y; Ok (c, (y + 1)%float)))
             with (fuel := n) (s := (c0, y)) as (s' & E & _)
         end.
    all: try (intros [c0 y] Hc; exact Hc).
    all: try (intros [c0 y] [c1 y']; simpl; body_counts).
    all: try (intros [c0 y] Hs; body_returns Hs).
    all: try exact Hfits.
    all: try exact Hfuel.
    all: unfold loop_vertical; rewrite E; eexists; reflexivity.
  - unfold octant_chain, loop_octant1, loop_octant2, loop_octant8, loop_octant7.
    destruct (_ && _); [|destruct (1 <? _)%float; [|destruct (_ && _);
      [|destruct (_ <? -1)%float]]]; intros Hfuel.
    5: eexists; reflexivity.
    all: match goal with |- context [while ?n ?cond ?body (?c0, ?x, ?y, ?d)] =>
           match type of Hfuel with
           | climbs _ x ?b = true =>
               destruct (while_leaves
                           (fun s : canvas * float * float * float =>
                              screen_fits (pixels s.1.1.1))
                           (fun s => s.1.1.2)
                           (fun v => (v <=? b)%float) (fun v => (v + 1)%float) cond body)
                 with (fuel := n) (s := (c0, x, y, d)) as (s' & E & _)
           | climbs _ y ?b = true =>
               destruct (while_leaves
                           (fun s : canvas * float * float * float =>
                              screen_fits (pixels s.1.1.1))
                           (fun s => s.1.2)
                           (fun v => (v <=? b)%float) (fun v => (v + 1)%float) cond body)
                 with (fuel := n) (s := (c0, x, y, d)) as (s' & E & _)
           | descends _ y ?b = true =>
               destruct (while_leaves
                           (fun s : canvas * float * float * float =>
                              screen_fits (pixels s.1.1.1))
                           (fun s => s.1.2)
                           (fun v => (b <=? v)%float) (fun v => (v - 1)%float) cond body)
                 with (fuel := n) (s := (c0, x, y, d)) as (s' & E & _)
           end
         end.
    all: try (intros [[[c0 x] y] d] Hc; simpl in Hc |- *;
              apply andb_true_iff in Hc; tauto).
    all: try (intros [[[c0 x] y] d] [[[c1 x'] y'] d']; simpl; body_counts).
    all: try (intros [[[c0 x] y] d] Hs; body_returns Hs).
    all: try exact Hfits.
    all: try exact Hfuel.
    all: rewrite E; eexists; reflexivity.
Qed.

(** X8. [DrawLine] returns, without panic, on a framebuffer of the display's
    size as soon as the counter that drives its loop leaves its range within
    the given number of steps: [x] counted up by 1 to the right endpoint in
    the octants 1 and 8, [y] counted up by 1 in the vertical case and in
    octant 2, [y] counted down by 1 in octant 7. *)
Theorem DrawLine_returns (fuel : nat) (c : canvas) (x0 y0 x1 y1 : float) :
  screen_fits (pixels c) ->
  enough_fuel fuel x0 y0 x1 y1 = true ->
  exists c', DrawLine fuel c x0 y0 x1 y1 = Ok c'.
Proof. rewrite DrawLine_as_one_loop. apply DrawLine_one_loop_returns. Qed.

End Returns.

(** ** The properties above on the reference packages *)

Lemma returns_of_calls (r : result canvas) (pts : list (float * float)) :
  calls r = Some pts -> exists c', r = Ok c' /\ plotted c' = pts.
Proof. destruct r as [c'| |]; try discriminate. intros [= <-]. eauto. Qed.

Lemma slanted_segment_calls :
  calls (DrawLine 6 (blank_canvas 500 500) 0 0 5 2) =
  Some [(0, 0); (1, 0); (2, 1); (3, 1); (4, 2); (5, 2)]%float.
Proof. vm_compute. reflexivity. Qed.

Lemma DrawLine_endpoint_order_witness :
  ((0 <? 5)%float = true \/ (5%float = 0%float /\ (0 <? 2)%float = true)) /\
  DrawLine 6 (blank_canvas 500 500) 5 2 0 0 = DrawLine 6 (blank_canvas 500 500) 0 0 5 2.
Proof.
  assert (Hord : (0 <? 5)%float = true \/ (5%float = 0%float /\ (0 <? 2)%float = true))
    by (left; reflexivity).
  split; [exact Hord|]. exact (DrawLine_endpoint_order 6 (blank_canvas 500 500) 5 2 0 0 Hord).
Defined.

Lemma DrawLine_nan_witness :
  is_nan nan || is_nan 0 || is_nan 5 || is_nan 2 = true /\
  DrawLine 6 (blank_canvas 500 500) nan 0 5 2 = Ok (blank_canvas 500 500).
Proof.
  split; [reflexivity|]. apply (DrawLine_nan 6 (blank_canvas 500 500) nan 0 5 2). reflexivity.
Defined.


Lemma DrawLine_paints_default_only_witness :
  exists c', DrawLine 6 (blank_canvas 500 500) 0 0 5 2 = Ok c' /\
    painted_from (pixels (blank_canvas 500 500)) (pixels c').
Proof.
  destruct (returns_of_calls _ _ slanted_segment_calls) as (c' & E & _).
  exists c'. split; [exact E|].
  exact (DrawLine_paints_default_only 6 (blank_canvas 500 500) c' 0 0 5 2 E).
Defined.

Lemma blank_canvas_fits : screen_fits (pixels (blank_canvas 500 500)).
Proof. apply blank_screen_fits; simpl; lia. Qed.

Lemma DrawLine_never_panics_witness :
  screen_fits (pixels (blank_canvas 500 500)) /\
  DrawLine 6 (blank_canvas 500 500) 0 0 5 2 <> Panic.
Proof.
  split; [exact blank_canvas_fits|].
  exact (DrawLine_never_panics 6 (blank_canvas 500 500) 0 0 5 2 blank_canvas_fits).
Defined.

Lemma DrawLine_returns_witness :
  screen_fits (pixels (blank_canvas 500 500)) /\
  enough_fuel 6 0 0 5 2 = true /\
  exists c', DrawLine 6 (blank_canvas 500 500) 0 0 5 2 = Ok c'.
Proof.
  split; [exact blank_canvas_fits|]. split; [reflexivity|].
  exact (DrawLine_returns 6 (blank_canvas 500 500) 0 0 5 2 blank_canvas_fits eq_refl).
Defined.

Lemma DrawLines_polyline_witness :
  (forall i, ExtractColumn [[0; 5; 5]; [0; 0; 5]; [0; 0; 0]; [1; 1; 1]]%float i =
             extract_column [[0; 5; 5]; [0; 0; 5]; [0; 0; 0]; [1; 1; 1]]%float i) /\
  Forall (fun row => length row = 3%nat) [[0; 0; 5]; [0; 0; 0]; [1; 1; 1]]%float /\
  3 < 2 ^ 63 /\ (3 <= 7)%nat /\
  DrawLines 6 [[0; 5; 5]; [0; 0; 5]; [0; 0; 0]; [1; 1; 1]]%float (blank_canvas 500 500) =
  draw_each 6 (blank_canvas 500 500) [(0, 0, 5, 0); (5, 0, 5, 5)]%float.
Proof.
  assert (Hrect : Forall (fun row => length row = 3%nat)
                    [[0; 0; 5]; [0; 0; 0]; [1; 1; 1]]%float) by (repeat constructor).
  assert (Hlen : 3 < 2 ^ 63) by reflexivity.
  assert (Hfuel : (3 <= 7)%nat) by lia.
  split; [reflexivity|]. split; [exact Hrect|]. split; [exact Hlen|]. split; [exact Hfuel|].
  exact (DrawLines_polyline 6 [0; 5; 5]%float [0; 0; 5]%float
           [[0; 0; 0]; [1; 1; 1]]%float (blank_canvas 500 500)
           (fun i => eq_refl) Hrect Hlen Hfuel).
Defined.

Lemma DrawLines_joins_edges_witness :
  (forall m i, ExtractColumn m i = extract_column m i) /\ (3 <= 10)%nat /\
  AddEdge empty_matrix [0; 0; 0; 5; 0; 0]%float = Ok [[0; 5]; [0; 0]; [0; 0]; [1; 1]]%float /\
  AddEdge [[0; 5]; [0; 0]; [0; 0]; [1; 1]]%float [9; 9; 0; 9; 4; 0]%float =
    Ok [[0; 5; 9; 9]; [0; 0; 9; 4]; [0; 0; 0; 0]; [1; 1; 1; 1]]%float /\
  DrawLines 10 [[0; 5; 9; 9]; [0; 0; 9; 4]; [0; 0; 0; 0]; [1; 1; 1; 1]]%float
    (blank_canvas 500 500) =
  draw_each 10 (blank_canvas 500 500) [(0, 0, 5, 0); (5, 0, 9, 9); (9, 9, 9, 4)]%float.
Proof.
  assert (Hfuel : (3 <= 10)%nat) by lia.
  split; [reflexivity|]. split; [exact Hfuel|]. split; [reflexivity|]. split; [reflexivity|].
  exact (DrawLines_joins_edges 10 (blank_canvas 500 500) 0 0 0 5 0 0 9 9 0 9 4 0 _ _
           (fun m i => eq_refl) Hfuel eq_refl eq_refl).
Defined.

Lemma DrawLines_paints_default_only_witness :
  exists c',
    DrawLines 6 [[0; 5; 5]; [0; 0; 5]; [0; 0; 0]; [1; 1; 1]]%float (blank_canvas 500 500) =
      Ok c' /\
    painted_from (pixels (blank_canvas 500 500)) (pixels c') /\
    exists pts, plotted c' = plotted (blank_canvas 500 500) ++ pts.
Proof.
  assert (Hcalls :
    calls (DrawLines 6 [[0; 5; 5]; [0; 0; 5]; [0; 0; 0]; [1; 1; 1]]%float
             (blank_canvas 500 500)) =
    Some [(0, 0); (1, 0); (2, 0); (3, 0); (4, 0); (5, 0);
          (5, 0); (5, 1); (5, 2); (5, 3); (5, 4); (5, 5)]%float)
    by (vm_compute; reflexivity).
  destruct (returns_of_calls _ _ Hcalls) as (c' & E & _).
  exists c'. split; [exact E|].
  exact (DrawLines_paints_default_only 6 _ (blank_canvas 500 500) c' E).
Defined.

Lemma AddCircle_panics_witness :
  AddCircle 0 empty_matrix [250; 250; 0]%float = Panic /\
  AddCircle 1 [[]; []; []] [250; 250; 0; 10]%float = Panic.
Proof.
  split.
  - apply (proj1 (AddCircle_panics 0 empty_matrix [250; 250; 0]%float)). simpl. lia.
  - apply (proj2 (AddCircle_panics 0 [[]; []; []] [250; 250; 0; 10]%float)); simpl; lia.
Defined.

Lemma AddCurve_samples_witness :
  AddCurve 4 empty_matrix 0 0 1 1 2 0 3 1 0.25 "bezier" =
  ([], Ok [[] ++ map (cubic 3 (-4) 2 0) [0; 0.25; 0.5; 0.75];
           [] ++ map (cubic (-1) 2 0 0) [0; 0.25; 0.5; 0.75];
           [] ++ map (fun _ => 0) [0; 0.25; 0.5; 0.75];
           [] ++ map (fun _ => 1) [0; 0.25; 0.5; 0.75]]%float).
Proof.
  apply (AddCurve_samples 4 [] [] [] [] [] 0 0 1 1 2 0 3 1 0.25 "bezier" MakeHermite
           [[0; 1; 2; 3]]%float [[0; 1; 0; 1]]%float [] []
           3 (-4) 2 0 (-1) 2 0 0 [] []); try reflexivity.
  right. split; reflexivity.
Defined.

Lemma AddCurve_wide_step_witness :
  (1 <=? 2)%float = true /\
  AddCurve 1 empty_matrix 0 0 1 1 2 0 3 1 2 "bezier" =
  ([], Ok [[] ++ [cubic 3 (-4) 2 0 0]; [] ++ [cubic (-1) 2 0 0 0];
           [] ++ [0]; [] ++ [1]]%float).
Proof.
  split; [reflexivity|].
  apply (AddCurve_wide_step 0 [] [] [] [] [] 0 0 1 1 2 0 3 1 2 "bezier" MakeHermite
           [[0; 1; 2; 3]]%float [[0; 1; 0; 1]]%float [] []
           3 (-4) 2 0 (-1) 2 0 0 [] []); try reflexivity.
  right. split; reflexivity.
Defined.

Lemma AddCurve_step_zero_witness :
  (0 =? 0)%float = true /\
  AddCurve 5 empty_matrix 0 0 1 1 2 0 3 1 0 "linear" =
    ([curve_type_diagnostic], Ok empty_matrix) /\
  "linear" <> "hermite" /\ "linear" <> "bezier".
Proof.
  split; [reflexivity|]. split; [reflexivity|].
  exact (AddCurve_step_zero 5 empty_matrix empty_matrix 0 0 1 1 2 0 3 1 0 "linear"
           [curve_type_diagnostic] eq_refl eq_refl).
Defined.

Lemma plot_order_free_witness :
  exists s1 s2,
    plot (blank_screen 500 500) 3 4 = Ok s1 /\ plot s1 5 6 = Ok s2 /\
    plot s1 3 4 = Ok s1 /\
    exists s1', plot (blank_screen 500 500) 5 6 = Ok s1' /\ plot s1' 3 4 = Ok s2.
Proof.
  destruct (plot_returns (blank_screen 500 500) 3 4 blank_canvas_fits) as (s1 & E1 & Hfits1).
  destruct (plot_returns s1 5 6 Hfits1) as (s2 & E2 & _).
  exists s1, s2. split; [exact E1|]. split; [exact E2|].
  exact (plot_order_free (blank_screen 500 500) s1 s2 3 4 5 6 E1 E2).
Defined.

Lemma float64ToInt_whole_witness :
  is_finite 3 = true /\ float_of_int (int_of_float 3) = 3%float /\ float64ToInt 3 = 3.
Proof.
  assert (Hfin : is_finite 3 = true) by reflexivity.
  assert (Hwhole : float_of_int (int_of_float 3) = 3%float) by (vm_compute; reflexivity).
  split; [exact Hfin|]. split; [exact Hwhole|].
  exact (float64ToInt_whole 3%float Hfin Hwhole).
Defined.
